(** * MTP::ConcurrentSender: pending-request registry and handler adapters

    A shallow embedding of [Telegram/SourceFiles/mtproto/concurrent_sender.h].

    The header declares the sender, its request builders and the request
    handle, and defines the templates: [setDoneHandler], [setFailHandler],
    [SpecificRequestBuilder::done] / [fail], the policy setters and
    [SentRequestWrap::cancel].  The bodies of [senderRequestRegister],
    [senderRequestDone], [senderRequestFail], [senderRequestCancel],
    [senderRequestCancelAll], [RequestBuilder::send] and the destructor live
    in the translation unit, which is not part of the sources at hand; those
    are modelled from the design document and marked as such. *)

From Stdlib Require Import ZArith List Lia.
From stdpp Require Import base option list gmap fin_maps.

Open Scope Z_scope.

Module MTP.

(** ** Core types ([mtproto/core_types.h], [base/bytes.h]) *)

(** [mtpRequestId] and [mtpPrime] are 32-bit signed integers, [ShiftedDcId]
    is an [int] and [TimeMs] a 64-bit integer. *)
Definition mtpRequestId := Z.
Definition mtpPrime := Z.
Definition ShiftedDcId := Z.
Definition TimeMs := Z.

(** [bytes::const_span] is a span of [std::byte]. *)
Definition const_span := list Byte.byte.

(** A serialized request is a buffer of primes. *)
Definition mtpRequest := list mtpPrime.

Definition byte_val (b : Byte.byte) : Z := Z.of_N (Byte.to_N b).

(** One prime read from four consecutive bytes of the span.  The source
    reinterprets the byte pointer as a [const mtpPrime*]; the client is
    built for little-endian hosts, so the first byte is the least
    significant one, and the 32-bit pattern is read as a signed value. *)
Definition prime_of_bytes (b0 b1 b2 b3 : Byte.byte) : mtpPrime :=
  let u := Z.lor (byte_val b0)
            (Z.lor (Z.shiftl (byte_val b1) 8)
              (Z.lor (Z.shiftl (byte_val b2) 16) (Z.shiftl (byte_val b3) 24))) in
  if u <? 2 ^ 31 then u else u - 2 ^ 32.

(** The primes in [[from, from + count)]. *)
Fixpoint primes_from (count : nat) (from : const_span) : list mtpPrime :=
  match count, from with
  | S n, b0 :: b1 :: b2 :: b3 :: rest =>
      prime_of_bytes b0 b1 b2 b3 :: primes_from n rest
  | _, _ => []
  end.

(** [from = reinterpret_cast<const mtpPrime*>(result.data());
     end = from + result.size() / sizeof(mtpPrime)]: the range handed to
    [Response::read].  Trailing bytes that do not fill a prime are outside
    the range. *)
Definition sizeof_mtpPrime : nat := 4.

Definition prime_range (result : const_span) : list mtpPrime :=
  primes_from (length result / sizeof_mtpPrime)%nat result.

(** ** Exceptions *)

(** C++ exceptions are values of arbitrary type; [catch (...)] catches all
    of them, so a tag is all the model has to carry. *)
Inductive Exception :=
  | Thrown (what : Z).

Inductive FailSkipPolicy :=
  | Simple
  | HandleFlood
  | HandleAll.

(** ** An instance for the examples *)

(** A response that is a single prime, read from the front of the range;
    reading from an empty range throws. *)
Definition example_read (range : list mtpPrime) : Exception + Z :=
  match range with
  | v :: _ => inr v
  | [] => inl (Thrown 0)
  end.

Definition example_serialize (v : Z) : mtpRequest := [v].

(** Errors known by their code: 420 is the flood class, negative codes and
    codes from 500 on are handled elsewhere. *)
Definition example_isFlood (code : Z) : bool := code =? 420.

Definition example_handledElsewhere (code : Z) : bool :=
  (code <? 0) || (500 <=? code).

Section Sender.

(** [Response] is [Request::ResponseType]; [RPCError] is only forward
    declared in the header. *)
Context {Response RPCError : Type}.

(** ** Calls a handler body can make back into the sender *)

Inductive Call :=
  | CallDone (requestId : mtpRequestId) (result : const_span)
  | CallFail (policy : FailSkipPolicy) (requestId : mtpRequestId)
             (error : RPCError)
  | CallCancel (requestId : mtpRequestId).

Definition call_id (c : Call) : mtpRequestId :=
  match c with
  | CallDone requestId _ => requestId
  | CallFail _ requestId _ => requestId
  | CallCancel requestId => requestId
  end.

(** ** User handlers *)

(** The argument lists a user handler can be called with. *)
Inductive DoneArgs :=
  | DoneFull (requestId : mtpRequestId) (result : Response)
  | DoneResponse (result : Response)
  | DoneRequestId (requestId : mtpRequestId)
  | DoneNone.

Inductive FailArgs :=
  | FailFull (requestId : mtpRequestId) (error : RPCError)
  | FailError (error : RPCError)
  | FailRequestId (requestId : mtpRequestId)
  | FailNone.

Inductive UserCall :=
  | UserDone (args : DoneArgs)
  | UserFail (args : FailArgs).

(** What the body of a user handler does, as far as the sender can tell: it
    calls back into the sender some number of times and then returns or
    throws.  An exception raised by one of the calls is not caught by the
    body. *)
Record Body := {
  calls : list Call;
  throws : option Exception;
}.

(** ** Code run on the owner's side *)

(** The shape of the code the callbacks consist of.  Every callback returns
    [void], so a computation carries no result. *)
Inductive Exec :=
  | Return
  | Throw (e : Exception)
  | Enter (u : UserCall) (k : Exec)          (* control enters a user handler *)
  | Reenter (c : Call) (k : Exec)            (* a call into the sender, then [k] *)
  | TryCatchAll (body : Exec) (k : Exec).    (* [try { body } catch (...) {}], then [k] *)

Definition body_exec (b : Body) : Exec :=
  foldr Reenter (match throws b with Some e => Throw e | None => Return end)
        (calls b).

(** [std::move(handler)(args...)] for a user handler. *)
Definition invoke (u : UserCall) (b : Body) : Exec := Enter u (body_exec b).

(** ** The sender *)

(** [FnMut<void(mtpRequestId, bytes::const_span)>] and
    [FnMut<void(mtpRequestId, RPCError&&)>]; a default-constructed [FnMut]
    is empty. *)
Definition DoneHandler := option (mtpRequestId → const_span → Exec).
Definition FailHandler := option (mtpRequestId → RPCError → Exec).

Record Handlers := {
  done : DoneHandler;
  fail : FailHandler;
}.

(** The sender's bookkeeping state: [base::flat_map<mtpRequestId, Handlers>
    _requests].  ([_run], the function that posts a closure to the owner's
    queue, takes no part in the bookkeeping.) *)
Record ConcurrentSender := {
  _requests : gmap Z Handlers;
}.

(** ** Observations *)

Inductive Event :=
  | DoneCalled (requestId : mtpRequestId) (result : const_span)
      (* the entry's done callback is invoked *)
  | FailCalled (requestId : mtpRequestId) (error : RPCError)
      (* the entry's fail callback is invoked *)
  | Dropped (requestId : mtpRequestId)
      (* the entry is erased and no callback is invoked *)
  | TransportCancel (requestId : mtpRequestId)
      (* the transport is told to stop delivering *)
  | UserEntered (u : UserCall).
      (* a user handler is called with these arguments *)

Inductive Outcome :=
  | Normal
  | Raised (e : Exception).

Record Result := {
  outcome : Outcome;
  sender : ConcurrentSender;
  trace : list Event;
}.

Definition finish (o : Outcome) (s : ConcurrentSender) : Result :=
  {| outcome := o; sender := s; trace := [] |}.

Definition after (t : list Event) (r : Result) : Result :=
  {| outcome := outcome r; sender := sender r; trace := t ++ trace r |}.

(** ** Failure classes *)

(** The error value is opaque here; the transport's taxonomy classifies it.
    [isFlood] recognises the flood / rate-limit class and [handledElsewhere]
    the remaining classes that the default policy keeps away from the fail
    handler. *)
Variable isFlood : RPCError → bool.
Variable handledElsewhere : RPCError → bool.

(** Modelled from the spec: the set of failure classes a policy keeps from
    the fail handler.  [Simple] suppresses the classes handled elsewhere,
    the flood class at least; [HandleFlood] forwards the flood class in
    addition to what [Simple] forwards; [HandleAll] forwards everything.
    The code that applies the policy is in the translation unit. *)
Definition suppressed (policy : FailSkipPolicy) (error : RPCError) : bool :=
  match policy with
  | Simple => isFlood error || handledElsewhere error
  | HandleFlood => (isFlood error || handledElsewhere error) && negb (isFlood error)
  | HandleAll => false
  end.

(** ** Registry operations *)

(** How an entry's callback is run: the interpreter below, at some depth. *)
Definition Runner := Exec → ConcurrentSender → option Result.

Definition erase (requestId : mtpRequestId) (s : ConcurrentSender) :
    ConcurrentSender :=
  {| _requests := delete requestId (_requests s) |}.

(** Modelled from the spec: [register(id, handlers)] inserts, and fails when
    the id is already present.  The body of [senderRequestRegister] is in the
    translation unit. *)
Definition senderRequestRegister (requestId : mtpRequestId) (handlers : Handlers)
    (s : ConcurrentSender) : option ConcurrentSender :=
  match _requests s !! requestId with
  | Some _ => None
  | None => Some {| _requests := <[requestId := handlers]> (_requests s) |}
  end.

(** Modelled from the spec: [deliverDone(id, rawBytes)] looks the id up; if
    it is absent nothing happens; if it is present the entry is removed
    first and then the done callback is invoked (decoding is the callback's
    own business, see [setDoneHandler]).  An entry whose done callback was
    never set has nothing to invoke.  The body of [senderRequestDone] is in
    the translation unit. *)
Definition deliverDone (call : Runner) (requestId : mtpRequestId)
    (result : const_span) (s : ConcurrentSender) : option Result :=
  match _requests s !! requestId with
  | None => Some (finish Normal s)
  | Some handlers =>
      match done handlers with
      | Some callback =>
          after [DoneCalled requestId result]
            <$> call (callback requestId result) (erase requestId s)
      | None => Some (after [Dropped requestId] (finish Normal (erase requestId s)))
      end
  end.

(** Modelled from the spec: [deliverFail(id, error)] looks the id up; if it
    is absent nothing happens; if it is present the entry is removed, then
    the policy the request was submitted with is applied: a suppressed
    error class does not reach the fail handler, any other invokes it once.
    The body of [senderRequestFail] and the code applying the policy are in
    the translation unit. *)
Definition deliverFail (call : Runner) (policy : FailSkipPolicy)
    (requestId : mtpRequestId) (error : RPCError) (s : ConcurrentSender) :
    option Result :=
  match _requests s !! requestId with
  | None => Some (finish Normal s)
  | Some handlers =>
      match fail handlers with
      | Some callback =>
          if suppressed policy error
          then Some (after [Dropped requestId] (finish Normal (erase requestId s)))
          else after [FailCalled requestId error]
                 <$> call (callback requestId error) (erase requestId s)
      | None => Some (after [Dropped requestId] (finish Normal (erase requestId s)))
      end
  end.

(** Modelled from the spec: [cancel(id)] removes the entry, if present,
    without invoking either callback, and tells the transport to stop
    delivering for the id.  The body of [senderRequestCancel] is in the
    translation unit. *)
Definition senderRequestCancel (requestId : mtpRequestId) (s : ConcurrentSender) :
    Result :=
  match _requests s !! requestId with
  | None => after [TransportCancel requestId] (finish Normal s)
  | Some _ =>
      after [Dropped requestId; TransportCancel requestId]
        (finish Normal (erase requestId s))
  end.

(** Modelled from the spec: [cancelAll()] removes every remaining entry
    without invoking any callback.  The body of [senderRequestCancelAll] is
    in the translation unit. *)
Definition senderRequestCancelAll (s : ConcurrentSender) : Result :=
  after (Dropped <$> (map_to_list (_requests s)).*1)
    (finish Normal {| _requests := ∅ |}).

(** Modelled from the spec: destroying the sender cancels all outstanding
    requests.  The destructor's body is in the translation unit. *)
Definition destroy (s : ConcurrentSender) : Result := senderRequestCancelAll s.

Definition dispatch (call : Runner) (c : Call) (s : ConcurrentSender) :
    option Result :=
  match c with
  | CallDone requestId result => deliverDone call requestId result s
  | CallFail policy requestId error => deliverFail call policy requestId error s
  | CallCancel requestId => Some (senderRequestCancel requestId s)
  end.

(** ** Running callbacks *)

(** A callback found in the registry runs after its entry has been erased,
    so the nesting of callbacks inside callbacks is bounded by the number of
    entries: [depth] counts how many more entries can be resolved from
    inside the code being run.  [None] means the depth did not suffice,
    which does not happen when it is at least the size of the registry
    ([exec_total]). *)
Fixpoint exec (depth : nat) : Runner :=
  fix go (p : Exec) (s : ConcurrentSender) {struct p} : option Result :=
    match p with
    | Return => Some (finish Normal s)
    | Throw e => Some (finish (Raised e) s)
    | Enter u k => after [UserEntered u] <$> go k s
    | Reenter c k =>
        r ← dispatch (match depth with
                      | O => λ _ _, None
                      | S d => exec d
                      end) c s;
        match outcome r with
        | Normal => after (trace r) <$> go k (sender r)
        | Raised _ => Some r
        end
    | TryCatchAll body k =>
        r ← go body s;
        after (trace r) <$> go k (sender r)
    end.

Definition below (depth : nat) : Runner :=
  match depth with
  | O => λ _ _, None
  | S d => exec d
  end.

(** Run a piece of code against a sender. *)
Definition run (p : Exec) (s : ConcurrentSender) : option Result :=
  exec (size (_requests s)) p s.

Definition senderRequestDone (requestId : mtpRequestId) (result : const_span)
    (s : ConcurrentSender) : option Result :=
  deliverDone (exec (size (_requests s))) requestId result s.

(** The policy is the one the request was submitted with; the transport's
    fail handler for the request carries it ([transportFail]). *)
Definition senderRequestFail (policy : FailSkipPolicy) (requestId : mtpRequestId)
    (error : RPCError) (s : ConcurrentSender) : option Result :=
  deliverFail (exec (size (_requests s))) policy requestId error s.

(** A call arriving at the sender from outside any callback. *)
Definition deliver (c : Call) (s : ConcurrentSender) : option Result :=
  dispatch (exec (size (_requests s))) c s.

(** ** Request builders *)

(** [Request] is the typed request, [serialize] stands for
    [mtpRequestData::serialize] and [read] for [Response::read] on the range
    [[from, end)]: it yields the decoded response or throws. *)
Context {Request : Type}.
Variable serialize : Request → mtpRequest.
Variable read : list mtpPrime → Exception + Response.

(** The builder's members, with the default member initializers of the
    class.  ([_sender] points at the sender the builder was made by; the
    sender is passed to [RequestBuilder_send] instead.) *)
Record RequestBuilder := {
  _serialized : mtpRequest;
  _dcId : ShiftedDcId;
  _canWait : TimeMs;
  _handlers : Handlers;
  _failSkipPolicy : FailSkipPolicy;
  _afterRequestId : mtpRequestId;
}.

(** Modelled from the spec: the constructor, whose body is in the
    translation unit, stores the serialized request; every other member
    has the default member initializer the header gives it. *)
Definition RequestBuilder_new (serialized : mtpRequest) : RequestBuilder :=
  {| _serialized := serialized;
     _dcId := 0;
     _canWait := 0;
     _handlers := {| done := None; fail := None |};
     _failSkipPolicy := Simple;
     _afterRequestId := 0 |}.

(** Modelled from the spec: the plain setters, whose bodies are in the
    translation unit, record their argument in the builder. *)
Definition setToDC (dcId : ShiftedDcId) (b : RequestBuilder) : RequestBuilder :=
  {| _serialized := _serialized b; _dcId := dcId; _canWait := _canWait b;
     _handlers := _handlers b; _failSkipPolicy := _failSkipPolicy b;
     _afterRequestId := _afterRequestId b |}.

Definition setCanWait (ms : TimeMs) (b : RequestBuilder) : RequestBuilder :=
  {| _serialized := _serialized b; _dcId := _dcId b; _canWait := ms;
     _handlers := _handlers b; _failSkipPolicy := _failSkipPolicy b;
     _afterRequestId := _afterRequestId b |}.

Definition setFailSkipPolicy (policy : FailSkipPolicy) (b : RequestBuilder) :
    RequestBuilder :=
  {| _serialized := _serialized b; _dcId := _dcId b; _canWait := _canWait b;
     _handlers := _handlers b; _failSkipPolicy := policy;
     _afterRequestId := _afterRequestId b |}.

Definition setAfter (requestId : mtpRequestId) (b : RequestBuilder) :
    RequestBuilder :=
  {| _serialized := _serialized b; _dcId := _dcId b; _canWait := _canWait b;
     _handlers := _handlers b; _failSkipPolicy := _failSkipPolicy b;
     _afterRequestId := requestId |}.

Definition with_handlers (handlers : Handlers) (b : RequestBuilder) :
    RequestBuilder :=
  {| _serialized := _serialized b; _dcId := _dcId b; _canWait := _canWait b;
     _handlers := handlers; _failSkipPolicy := _failSkipPolicy b;
     _afterRequestId := _afterRequestId b |}.

(** The closure [setDoneHandler] stores: inside one [try] block the result
    is decoded and the full handler is invoked; [catch (...)] has an empty
    body. *)
Definition done_closure (invokeFull : mtpRequestId → Response → Exec)
    (requestId : mtpRequestId) (result : const_span) : Exec :=
  TryCatchAll
    (match read (prime_range result) with
     | inl e => Throw e
     | inr data => invokeFull requestId data
     end)
    Return.

Definition setDoneHandler (invokeFull : mtpRequestId → Response → Exec)
    (b : RequestBuilder) : RequestBuilder :=
  with_handlers {| done := Some (done_closure invokeFull);
                   fail := fail (_handlers b) |} b.

Definition setFailHandler (invokeFull : mtpRequestId → RPCError → Exec)
    (b : RequestBuilder) : RequestBuilder :=
  with_handlers {| done := done (_handlers b);
                   fail := Some invokeFull |} b.

(** *** Handlers as the user supplies them *)

(** A callable object, described by the argument lists its call operator
    accepts: a field is [Some] exactly when
    [rpl::details::is_callable_plain_v<Handler, Args...>] holds for that
    argument list, and then gives the body run by that call. *)
Record DoneCallable := {
  done_full : option (mtpRequestId → Response → Body);
  done_response : option (Response → Body);
  done_requestId : option (mtpRequestId → Body);
  done_none : option Body;
}.

Record FailCallable := {
  fail_full : option (mtpRequestId → RPCError → Body);
  fail_error : option (RPCError → Body);
  fail_requestId : option (mtpRequestId → Body);
  fail_none : option Body;
}.

Definition is_callable_plain_v {A : Type} (overload : option A) : bool :=
  match overload with
  | Some _ => true
  | None => false
  end.

(** The four adapters of [done], each normalised to [(requestId, result)]. *)
Definition done_adapter_full (f : mtpRequestId → Response → Body)
    (requestId : mtpRequestId) (result : Response) : Exec :=
  invoke (UserDone (DoneFull requestId result)) (f requestId result).

Definition done_adapter_response (f : Response → Body)
    (requestId : mtpRequestId) (result : Response) : Exec :=
  invoke (UserDone (DoneResponse result)) (f result).

Definition done_adapter_requestId (f : mtpRequestId → Body)
    (requestId : mtpRequestId) (result : Response) : Exec :=
  invoke (UserDone (DoneRequestId requestId)) (f requestId).

Definition done_adapter_none (f : Body)
    (requestId : mtpRequestId) (result : Response) : Exec :=
  invoke (UserDone DoneNone) f.

(** [SpecificRequestBuilder::done]: the [if constexpr] chain over
    [takesFull], [takesResponse], [takesRequestId], [takesNone]; the last
    branch is the [static_assert], so the instantiation does not compile
    and there is no builder: [None]. *)
Definition SpecificRequestBuilder_done (handler : DoneCallable)
    (b : RequestBuilder) : option RequestBuilder :=
  match done_full handler with
  | Some f => Some (setDoneHandler (done_adapter_full f) b)
  | None =>
  match done_response handler with
  | Some f => Some (setDoneHandler (done_adapter_response f) b)
  | None =>
  match done_requestId handler with
  | Some f => Some (setDoneHandler (done_adapter_requestId f) b)
  | None =>
  match done_none handler with
  | Some f => Some (setDoneHandler (done_adapter_none f) b)
  | None => None
  end end end end.

Definition fail_adapter_full (f : mtpRequestId → RPCError → Body)
    (requestId : mtpRequestId) (error : RPCError) : Exec :=
  invoke (UserFail (FailFull requestId error)) (f requestId error).

Definition fail_adapter_error (f : RPCError → Body)
    (requestId : mtpRequestId) (error : RPCError) : Exec :=
  invoke (UserFail (FailError error)) (f error).

Definition fail_adapter_requestId (f : mtpRequestId → Body)
    (requestId : mtpRequestId) (error : RPCError) : Exec :=
  invoke (UserFail (FailRequestId requestId)) (f requestId).

Definition fail_adapter_none (f : Body)
    (requestId : mtpRequestId) (error : RPCError) : Exec :=
  invoke (UserFail FailNone) f.

(** [SpecificRequestBuilder::fail]: the same chain over [takesFull],
    [takesError], [takesRequestId], [takesNone]. *)
Definition SpecificRequestBuilder_fail (handler : FailCallable)
    (b : RequestBuilder) : option RequestBuilder :=
  match fail_full handler with
  | Some f => Some (setFailHandler (fail_adapter_full f) b)
  | None =>
  match fail_error handler with
  | Some f => Some (setFailHandler (fail_adapter_error f) b)
  | None =>
  match fail_requestId handler with
  | Some f => Some (setFailHandler (fail_adapter_requestId f) b)
  | None =>
  match fail_none handler with
  | Some f => Some (setFailHandler (fail_adapter_none f) b)
  | None => None
  end end end end.

Definition toDC (dcId : ShiftedDcId) (b : RequestBuilder) : RequestBuilder :=
  setToDC dcId b.

Definition afterDelay (ms : TimeMs) (b : RequestBuilder) : RequestBuilder :=
  setCanWait ms b.

Definition handleFloodErrors (b : RequestBuilder) : RequestBuilder :=
  setFailSkipPolicy HandleFlood b.

Definition handleAllErrors (b : RequestBuilder) : RequestBuilder :=
  setFailSkipPolicy HandleAll b.

Definition afterRequest (requestId : mtpRequestId) (b : RequestBuilder) :
    RequestBuilder :=
  setAfter requestId b.

(** [ConcurrentSender::request(Request&&)]. *)
Definition request (r : Request) : RequestBuilder :=
  RequestBuilder_new (serialize r).

(** What the transport receives for one request. *)
Record Submission := {
  sub_requestId : mtpRequestId;
  sub_serialized : mtpRequest;
  sub_dcId : ShiftedDcId;
  sub_canWait : TimeMs;
  sub_afterRequestId : mtpRequestId;
  sub_policy : FailSkipPolicy;
}.

(** Modelled from the spec: [send()] hands the finalized request to the
    transport, receives a request id back and registers the handler pair
    under that id before returning it.  [requestId] is the id the transport
    assigns.  The body of [RequestBuilder::send] is in the translation
    unit. *)
Definition RequestBuilder_send (b : RequestBuilder) (requestId : mtpRequestId)
    (s : ConcurrentSender) : option (ConcurrentSender * Submission) :=
  s' ← senderRequestRegister requestId (_handlers b) s;
  Some (s', {| sub_requestId := requestId;
               sub_serialized := _serialized b;
               sub_dcId := _dcId b;
               sub_canWait := _canWait b;
               sub_afterRequestId := _afterRequestId b;
               sub_policy := _failSkipPolicy b |}).

(** Modelled from the spec: the transport delivers a failure of a submitted
    request under the policy the request was submitted with. *)
Definition transportFail (sub : Submission) (error : RPCError)
    (s : ConcurrentSender) : option Result :=
  senderRequestFail (sub_policy sub) (sub_requestId sub) error s.

(** Modelled from the spec: the transport delivers the result of a
    submitted request under the id it assigned. *)
Definition transportDone (sub : Submission) (result : const_span)
    (s : ConcurrentSender) : option Result :=
  senderRequestDone (sub_requestId sub) result s.

(** ** Request handles *)

Record SentRequestWrap := {
  _requestId : mtpRequestId;
}.

(** [ConcurrentSender::request(mtpRequestId)]. *)
Definition sent_request (requestId : mtpRequestId) : SentRequestWrap :=
  {| _requestId := requestId |}.

Definition SentRequestWrap_cancel (w : SentRequestWrap) (s : ConcurrentSender) :
    Result :=
  senderRequestCancel (_requestId w) s.

Definition requestCanceller (requestId : mtpRequestId) (s : ConcurrentSender) :
    Result :=
  SentRequestWrap_cancel (sent_request requestId) s.

(** ** What a trace says *)

Close Scope Z_scope.

(** The event resolves request [X]: its entry left the registry. *)
Definition resolves (X : mtpRequestId) (ev : Event) : bool :=
  match ev with
  | DoneCalled requestId _ => bool_decide (requestId = X)
  | FailCalled requestId _ => bool_decide (requestId = X)
  | Dropped requestId => bool_decide (requestId = X)
  | TransportCancel _ => false
  | UserEntered _ => false
  end.

Definition resolutions (X : mtpRequestId) (t : list Event) : nat :=
  length (List.filter (resolves X) t).

(** The event is the invocation of a callback or of a user handler. *)
Definition is_invocation (ev : Event) : bool :=
  match ev with
  | DoneCalled _ _ => true
  | FailCalled _ _ => true
  | UserEntered _ => true
  | Dropped _ => false
  | TransportCancel _ => false
  end.

Definition invocations (t : list Event) : list Event :=
  List.filter is_invocation t.

(** The event is the invocation of the callback registered for [X]. *)
Definition invokes (X : mtpRequestId) (ev : Event) : bool :=
  match ev with
  | DoneCalled requestId _ => bool_decide (requestId = X)
  | FailCalled requestId _ => bool_decide (requestId = X)
  | _ => false
  end.

Definition callback_calls (X : mtpRequestId) (t : list Event) : nat :=
  length (List.filter (invokes X) t).

(** One outcome is still owed for [X] exactly while its entry is present. *)
Definition owed (X : mtpRequestId) (s : ConcurrentSender) : nat :=
  match _requests s !! X with
  | Some _ => 1
  | None => 0
  end.

Definition contains (s : ConcurrentSender) (X : mtpRequestId) : Prop :=
  is_Some (_requests s !! X).

(** What happens to a sender over time: requests are submitted, which
    registers their handlers, and calls arrive.  [register] refuses an id
    that is present, and the registry stays as it is. *)
Inductive Step :=
  | Submit (requestId : mtpRequestId) (handlers : Handlers)
  | Arrive (c : Call).

Definition submits (X : mtpRequestId) (st : Step) : Prop :=
  match st with
  | Submit requestId _ => requestId = X
  | Arrive _ => False
  end.

Definition step (st : Step) (s : ConcurrentSender) : option Result :=
  match st with
  | Submit requestId handlers =>
      Some (finish Normal
              (default s (senderRequestRegister requestId handlers s)))
  | Arrive c => deliver c s
  end.

(** The steps happen one after another; an exception that leaves a call
    ends that call only. *)
Fixpoint play (steps : list Step) (s : ConcurrentSender) :
    option (ConcurrentSender * list Event) :=
  match steps with
  | [] => Some (s, [])
  | st :: rest =>
      r ← step st s;
      '(s', t) ← play rest (sender r);
      Some (s', trace r ++ t)
  end.

(** What a call for an absent id does: nothing, apart from the word to the
    transport that a cancellation always sends. *)
Definition absent_result (c : Call) (s : ConcurrentSender) : Result :=
  match c with
  | CallCancel requestId => after [TransportCancel requestId] (finish Normal s)
  | _ => finish Normal s
  end.

(** A relation between the sender before and the result after that every
    primitive step establishes and that sequencing preserves. *)
Record Closed (P : ConcurrentSender → Result → Prop) : Prop := {
  closed_finish : ∀ s o, P s (finish o s);
  closed_seq : ∀ s r1 r2,
    P s r1 → P (sender r1) r2 → P s (after (trace r1) r2);
  closed_enter : ∀ s r u, P s r → P s (after [UserEntered u] r);
  closed_done : ∀ s requestId handlers result r,
    _requests s !! requestId = Some handlers →
    P (erase requestId s) r → P s (after [DoneCalled requestId result] r);
  closed_fail : ∀ s requestId handlers error r,
    _requests s !! requestId = Some handlers →
    P (erase requestId s) r → P s (after [FailCalled requestId error] r);
  closed_drop : ∀ s requestId handlers,
    _requests s !! requestId = Some handlers →
    P s (after [Dropped requestId] (finish Normal (erase requestId s)));
  closed_cancel : ∀ s requestId, P s (senderRequestCancel requestId s);
}.

(** The result of code run inside [try { } catch (...) {}]: what it did
    stands, what it threw is gone. *)
Definition absorbed (r : Result) : Result :=
  {| outcome := Normal; sender := sender r; trace := trace r |}.

(** *** Which call a user handler receives *)

(** Follows the spec's words: the done-handler shapes, most to least
    specific, are (id, response), (response), (id) and (); the first
    structural match wins.  A match determines the arguments the handler is
    called with and the body that call runs, given the canonical pair. *)
Inductive done_match (h : DoneCallable) :
    (mtpRequestId → Response → DoneArgs * Body) → Prop :=
  | done_match_full f :
      done_full h = Some f →
      done_match h (λ requestId result, (DoneFull requestId result, f requestId result))
  | done_match_response f :
      done_full h = None → done_response h = Some f →
      done_match h (λ requestId result, (DoneResponse result, f result))
  | done_match_requestId f :
      done_full h = None → done_response h = None →
      done_requestId h = Some f →
      done_match h (λ requestId result, (DoneRequestId requestId, f requestId))
  | done_match_none f :
      done_full h = None → done_response h = None →
      done_requestId h = None → done_none h = Some f →
      done_match h (λ requestId result, (DoneNone, f)).

(** Follows the spec's words: the fail-handler shapes, same precedence with
    the error in place of the response. *)
Inductive fail_match (h : FailCallable) :
    (mtpRequestId → RPCError → FailArgs * Body) → Prop :=
  | fail_match_full f :
      fail_full h = Some f →
      fail_match h (λ requestId error, (FailFull requestId error, f requestId error))
  | fail_match_error f :
      fail_full h = None → fail_error h = Some f →
      fail_match h (λ requestId error, (FailError error, f error))
  | fail_match_requestId f :
      fail_full h = None → fail_error h = None →
      fail_requestId h = Some f →
      fail_match h (λ requestId error, (FailRequestId requestId, f requestId))
  | fail_match_none f :
      fail_full h = None → fail_error h = None →
      fail_requestId h = None → fail_none h = Some f →
      fail_match h (λ requestId error, (FailNone, f)).

(** The handler's call operator accepts none of the four argument lists. *)
Definition no_done_shape (h : DoneCallable) : Prop :=
  is_callable_plain_v (done_full h) = false ∧
  is_callable_plain_v (done_response h) = false ∧
  is_callable_plain_v (done_requestId h) = false ∧
  is_callable_plain_v (done_none h) = false.

Definition no_fail_shape (h : FailCallable) : Prop :=
  is_callable_plain_v (fail_full h) = false ∧
  is_callable_plain_v (fail_error h) = false ∧
  is_callable_plain_v (fail_requestId h) = false ∧
  is_callable_plain_v (fail_none h) = false.

(** The calls of user handlers that a piece of code makes itself, in order
    (not those made by callbacks it reaches through the sender). *)
Fixpoint entries (p : Exec) : list UserCall :=
  match p with
  | Return => []
  | Throw _ => []
  | Enter u k => u :: entries k
  | Reenter _ k => entries k
  | TryCatchAll body k => entries body ++ entries k
  end.

(** The builder call that selects a policy; [Simple] is the default and
    has no call. *)
Definition select_policy (policy : FailSkipPolicy) (b : RequestBuilder) :
    RequestBuilder :=
  match policy with
  | Simple => b
  | HandleFlood => handleFloodErrors b
  | HandleAll => handleAllErrors b
  end.

(** The fail callback of [requestId] was invoked with [error], it called
    the user handler, and no callback of [requestId] was invoked again. *)
Definition fail_invoked_once (requestId : mtpRequestId) (error : RPCError)
    (r : Result) : Prop :=
  ∃ args t,
    trace r = FailCalled requestId error :: UserEntered (UserFail args) :: t ∧
    callback_calls requestId (trace r) = 1.

(** ** The range of primes *)

Lemma primes_from_length count : ∀ from,
  4 * count ≤ length from → length (primes_from count from) = count.
Proof.
  induction count as [|n IH]; intros from Hlen; [done|].
  destruct from as [|b0 [|b1 [|b2 [|b3 rest]]]]; simpl in Hlen; try lia.
  simpl. rewrite IH; [done|lia].
Qed.

(** The range holds as many primes as fit in the span. *)
Lemma prime_range_length (result : const_span) :
  length (prime_range result) = length result / sizeof_mtpPrime.
Proof.
  unfold prime_range, sizeof_mtpPrime. apply primes_from_length.
  apply Nat.Div0.mul_div_le.
Qed.

(** ** The interpreter: unfolding, postconditions, totality *)

Lemma exec_unfold depth p s :
  exec depth p s =
    match p with
    | Return => Some (finish Normal s)
    | Throw e => Some (finish (Raised e) s)
    | Enter u k => after [UserEntered u] <$> exec depth k s
    | Reenter c k =>
        r ← dispatch (below depth) c s;
        match outcome r with
        | Normal => after (trace r) <$> exec depth k (sender r)
        | Raised _ => Some r
        end
    | TryCatchAll body k =>
        r ← exec depth body s;
        after (trace r) <$> exec depth k (sender r)
    end.
Proof. destruct depth, p; reflexivity. Qed.

Lemma after_nil r : after [] r = r.
Proof. by destruct r. Qed.

Lemma after_after t1 t2 r : after t1 (after t2 r) = after (t1 ++ t2) r.
Proof. destruct r; unfold after; simpl. by rewrite app_assoc. Qed.

Section Postcondition.

(** Such a relation holds of every run. *)
Variable P : ConcurrentSender → Result → Prop.
Hypothesis HP : Closed P.

Lemma dispatch_post (call : Runner) c s r :
  (∀ p s' r', call p s' = Some r' → P s' r') →
  dispatch call c s = Some r → P s r.
Proof.
  intros Hcall.
  pose proof HP as [P_finish _ _ P_done P_fail P_drop P_cancel].
  destruct c as [requestId result|policy requestId error|requestId]; simpl.
  - unfold deliverDone.
    destruct (_requests s !! requestId) as [handlers|] eqn:Hl.
    + destruct (done handlers) as [callback|].
      * destruct (call _ _) as [r'|] eqn:Hr; simpl; [|done].
        intros [= <-]. eauto.
      * intros [= <-]. eauto.
    + intros [= <-]. apply P_finish.
  - unfold deliverFail.
    destruct (_requests s !! requestId) as [handlers|] eqn:Hl.
    + destruct (fail handlers) as [callback|].
      * destruct (suppressed policy error).
        -- intros [= <-]. eauto.
        -- destruct (call _ _) as [r'|] eqn:Hr; simpl; [|done].
           intros [= <-]. eauto.
      * intros [= <-]. eauto.
    + intros [= <-]. apply P_finish.
  - intros [= <-]. apply P_cancel.
Qed.

Lemma exec_post_step depth :
  (∀ p s r, below depth p s = Some r → P s r) →
  ∀ p s r, exec depth p s = Some r → P s r.
Proof.
  intros Hbelow.
  pose proof HP as [P_finish P_seq P_enter _ _ _ _].
  induction p as [|e|u k IHk|c k IHk|body IHb k IHk]; intros s r;
    rewrite exec_unfold.
  - intros [= <-]. apply P_finish.
  - intros [= <-]. apply P_finish.
  - destruct (exec depth k s) as [r'|] eqn:Hk; simpl; [|done].
    intros [= <-]. eauto.
  - destruct (dispatch (below depth) c s) as [r1|] eqn:Hc; simpl; [|done].
    assert (P s r1) as H1 by (eapply dispatch_post; [exact Hbelow|exact Hc]).
    destruct (outcome r1).
    + destruct (exec depth k (sender r1)) as [r2|] eqn:Hk; simpl; [|done].
      intros [= <-]. eauto.
    + by intros [= <-].
  - destruct (exec depth body s) as [r1|] eqn:Hb; simpl; [|done].
    destruct (exec depth k (sender r1)) as [r2|] eqn:Hk; simpl; [|done].
    intros [= <-]. eauto.
Qed.

Lemma exec_post depth : ∀ p s r, exec depth p s = Some r → P s r.
Proof.
  induction depth as [|d IHd]; apply exec_post_step; simpl.
  - intros; discriminate.
  - exact IHd.
Qed.

Lemma deliver_post c s r : deliver c s = Some r → P s r.
Proof. apply dispatch_post, exec_post. Qed.

End Postcondition.

(** *** Entries only ever leave the registry *)

Lemma erase_subseteq requestId s : _requests (erase requestId s) ⊆ _requests s.
Proof. apply delete_subseteq. Qed.

Lemma shrinks_closed : Closed (λ s r, _requests (sender r) ⊆ _requests s).
Proof.
  split; simpl; try done.
  - intros s r1 r2 H1 H2. by etrans.
  - intros s requestId _ _ r _ H. etrans; [exact H|apply erase_subseteq].
  - intros s requestId _ _ r _ H. etrans; [exact H|apply erase_subseteq].
  - intros s requestId _ _. apply erase_subseteq.
  - intros s requestId. unfold senderRequestCancel.
    destruct (_requests s !! requestId); simpl; [apply erase_subseteq|done].
Qed.

Lemma exec_shrinks depth p s r :
  exec depth p s = Some r → _requests (sender r) ⊆ _requests s.
Proof. apply (exec_post _ shrinks_closed). Qed.

Lemma dispatch_shrinks depth c s r :
  dispatch (below depth) c s = Some r → _requests (sender r) ⊆ _requests s.
Proof.
  apply (dispatch_post _ shrinks_closed). destruct depth; simpl.
  - intros; discriminate.
  - apply (exec_post _ shrinks_closed).
Qed.

(** *** Every resolution is an erasure, and every erasure a resolution *)

Lemma resolutions_app X t1 t2 :
  resolutions X (t1 ++ t2) = resolutions X t1 + resolutions X t2.
Proof. unfold resolutions. by rewrite List.filter_app, length_app. Qed.

Lemma owed_erase_eq X s :
  contains s X → owed X s = S (owed X (erase X s)).
Proof.
  intros [h Hh]. unfold owed, erase; simpl. by rewrite Hh, lookup_delete_eq.
Qed.

Lemma owed_erase_ne X requestId s :
  requestId ≠ X → owed X (erase requestId s) = owed X s.
Proof. intros Hne. unfold owed, erase; simpl. by rewrite lookup_delete_ne. Qed.

Lemma resolves_owed X requestId s :
  contains s requestId →
  (if bool_decide (requestId = X) then 1 else 0) + owed X (erase requestId s)
  = owed X s.
Proof.
  intros Hc. case_bool_decide as Heq.
  - subst. by rewrite (owed_erase_eq X s).
  - by rewrite owed_erase_ne.
Qed.

Lemma accounting_closed X :
  Closed (λ s r, resolutions X (trace r) + owed X (sender r) = owed X s).
Proof.
  split; simpl.
  - done.
  - intros s r1 r2 H1 H2. rewrite resolutions_app. lia.
  - intros s r u H. exact H.
  - intros s requestId handlers result r Hl H.
    rewrite <- (resolves_owed X requestId s) by (by eexists).
    unfold resolutions in *; simpl. destruct (bool_decide _); simpl; lia.
  - intros s requestId handlers error r Hl H.
    rewrite <- (resolves_owed X requestId s) by (by eexists).
    unfold resolutions in *; simpl. destruct (bool_decide _); simpl; lia.
  - intros s requestId handlers Hl.
    rewrite <- (resolves_owed X requestId s) by (by eexists).
    unfold resolutions; simpl. destruct (bool_decide _); simpl; lia.
  - intros s requestId. unfold senderRequestCancel.
    destruct (_requests s !! requestId) as [h|] eqn:Hl; simpl; [|done].
    rewrite <- (resolves_owed X requestId s) by (by eexists).
    unfold resolutions; simpl. destruct (bool_decide _); simpl; lia.
Qed.

Lemma exec_accounting X depth p s r :
  exec depth p s = Some r →
  resolutions X (trace r) + owed X (sender r) = owed X s.
Proof. apply (exec_post _ (accounting_closed X)). Qed.

Lemma deliver_accounting X c s r :
  deliver c s = Some r →
  resolutions X (trace r) + owed X (sender r) = owed X s.
Proof. apply (deliver_post _ (accounting_closed X)). Qed.

(** *** More depth changes nothing *)

Lemma dispatch_mono (call call' : Runner) c s r :
  (∀ p s' r', call p s' = Some r' → call' p s' = Some r') →
  dispatch call c s = Some r → dispatch call' c s = Some r.
Proof.
  intros Hcall. destruct c as [requestId result|policy requestId error|requestId];
    simpl; [unfold deliverDone|unfold deliverFail|done].
  - destruct (_requests s !! requestId) as [handlers|]; [|done].
    destruct (done handlers) as [callback|]; [|done].
    destruct (call _ _) as [r'|] eqn:Hr; simpl; [|done].
    by rewrite (Hcall _ _ _ Hr).
  - destruct (_requests s !! requestId) as [handlers|]; [|done].
    destruct (fail handlers) as [callback|]; [|done].
    destruct (suppressed policy error); [done|].
    destruct (call _ _) as [r'|] eqn:Hr; simpl; [|done].
    by rewrite (Hcall _ _ _ Hr).
Qed.

Lemma exec_mono_step depth depth' :
  (∀ p s r, below depth p s = Some r → below depth' p s = Some r) →
  ∀ p s r, exec depth p s = Some r → exec depth' p s = Some r.
Proof.
  intros Hbelow.
  induction p as [|e|u k IHk|c k IHk|body IHb k IHk]; intros s r;
    rewrite (exec_unfold depth), (exec_unfold depth'); try done.
  - destruct (exec depth k s) as [r'|] eqn:Hk; simpl; [|done].
    by rewrite (IHk _ _ Hk).
  - destruct (dispatch (below depth) c s) as [r1|] eqn:Hc; simpl; [|done].
    rewrite (dispatch_mono _ _ _ _ _ Hbelow Hc); simpl.
    destruct (outcome r1); [|done].
    destruct (exec depth k (sender r1)) as [r2|] eqn:Hk; simpl; [|done].
    by rewrite (IHk _ _ Hk).
  - destruct (exec depth body s) as [r1|] eqn:Hb; simpl; [|done].
    rewrite (IHb _ _ Hb); simpl.
    destruct (exec depth k (sender r1)) as [r2|] eqn:Hk; simpl; [|done].
    by rewrite (IHk _ _ Hk).
Qed.

Lemma exec_mono depth : ∀ depth' p s r,
  depth ≤ depth' → exec depth p s = Some r → exec depth' p s = Some r.
Proof.
  induction depth as [|d IHd]; intros depth' p s r Hle; revert p s r;
    apply exec_mono_step; simpl.
  - intros; discriminate.
  - destruct depth' as [|d']; [lia|]. simpl. intros p s r. apply IHd. lia.
Qed.

(** *** A depth of the registry's size suffices *)

Lemma size_erase requestId s :
  contains s requestId →
  size (_requests s) = S (size (_requests (erase requestId s))).
Proof.
  intros Hc. unfold erase; simpl.
  rewrite map_size_delete_Some by done.
  assert (size (_requests s) ≠ 0); [|lia].
  apply map_size_ne_0_lookup. eauto.
Qed.

Lemma dispatch_total (call : Runner) c s :
  (∀ requestId p, contains s requestId →
     is_Some (call p (erase requestId s))) →
  is_Some (dispatch call c s).
Proof.
  intros Hcall. destruct c as [requestId result|policy requestId error|requestId];
    simpl; [unfold deliverDone|unfold deliverFail|done].
  - destruct (_requests s !! requestId) as [handlers|] eqn:Hl; [|done].
    destruct (done handlers) as [callback|]; [|done].
    destruct (Hcall requestId (callback requestId result)) as [r Hr];
      [by eexists|]. by rewrite Hr.
  - destruct (_requests s !! requestId) as [handlers|] eqn:Hl; [|done].
    destruct (fail handlers) as [callback|]; [|done].
    destruct (suppressed policy error); [done|].
    destruct (Hcall requestId (callback requestId error)) as [r Hr];
      [by eexists|]. by rewrite Hr.
Qed.

Lemma exec_total_step depth :
  (∀ p s, S (size (_requests s)) ≤ depth → is_Some (below depth p s)) →
  ∀ p s, size (_requests s) ≤ depth → is_Some (exec depth p s).
Proof.
  intros Hbelow.
  induction p as [|e|u k IHk|c k IHk|body IHb k IHk]; intros s Hs;
    rewrite exec_unfold; try done.
  - destruct (IHk s Hs) as [r Hr]. by rewrite Hr.
  - destruct (dispatch_total (below depth) c s) as [r1 Hr1].
    { intros requestId p Hc. apply Hbelow.
      rewrite (size_erase requestId s) in Hs by done. lia. }
    rewrite Hr1; simpl. destruct (outcome r1); [|done].
    destruct (IHk (sender r1)) as [r2 Hr2].
    { apply dispatch_shrinks, map_subseteq_size in Hr1. lia. }
    by rewrite Hr2.
  - destruct (IHb s Hs) as [r1 Hr1]. rewrite Hr1; simpl.
    destruct (IHk (sender r1)) as [r2 Hr2].
    { apply exec_shrinks, map_subseteq_size in Hr1. lia. }
    by rewrite Hr2.
Qed.

Lemma exec_total depth : ∀ p s,
  size (_requests s) ≤ depth → is_Some (exec depth p s).
Proof.
  induction depth as [|d IHd]; apply exec_total_step; simpl.
  - intros; lia.
  - intros p s Hs. apply IHd. lia.
Qed.

Lemma exec_enough depth p s :
  size (_requests s) ≤ depth → exec depth p s = run p s.
Proof.
  intros Hs. destruct (exec_total (size (_requests s)) p s) as [r Hr]; [done|].
  unfold run. rewrite Hr. by apply (exec_mono (size (_requests s))).
Qed.

Lemma run_total p s : is_Some (run p s).
Proof. by apply exec_total. Qed.

Lemma deliver_total c s : is_Some (deliver c s).
Proof.
  apply dispatch_total. intros requestId p Hc. apply exec_total.
  rewrite (size_erase requestId s) by done. lia.
Qed.

(** ** Calls for an id, present or absent *)

Lemma not_contains_None s X : ¬ contains s X ↔ _requests s !! X = None.
Proof. unfold contains. by rewrite eq_None_not_Some. Qed.

Lemma owed_contains s X : owed X s = 1 ↔ contains s X.
Proof.
  unfold owed, contains. destruct (_requests s !! X); split; done.
Qed.

Lemma owed_absent s X : owed X s = 0 ↔ ¬ contains s X.
Proof.
  rewrite not_contains_None. unfold owed.
  by destruct (_requests s !! X).
Qed.

Lemma owed_le_1 s X : owed X s ≤ 1.
Proof. unfold owed. destruct (_requests s !! X); lia. Qed.

Lemma erase_absent s X : ¬ contains (erase X s) X.
Proof. apply not_contains_None. unfold erase; simpl. apply lookup_delete_eq. Qed.

Lemma absent_stays s s' X :
  _requests s' ⊆ _requests s → ¬ contains s X → ¬ contains s' X.
Proof.
  rewrite !not_contains_None. intros Hsub Hn.
  by apply (lookup_weaken_None _ (_requests s)).
Qed.

Lemma erase_absent_id s X : ¬ contains s X → erase X s = s.
Proof.
  rewrite not_contains_None. intros Hn. destruct s as [m]; unfold erase; simpl in *.
  f_equal. by apply delete_id.
Qed.

Lemma dispatch_absent (call : Runner) c s :
  ¬ contains s (call_id c) → dispatch call c s = Some (absent_result c s).
Proof.
  rewrite not_contains_None.
  destruct c as [requestId result|policy requestId error|requestId]; simpl;
    intros Hn.
  - unfold deliverDone. by rewrite Hn.
  - unfold deliverFail. by rewrite Hn.
  - unfold senderRequestCancel. by rewrite Hn.
Qed.

Lemma deliver_shrinks c s r :
  deliver c s = Some r → _requests (sender r) ⊆ _requests s.
Proof. apply (deliver_post _ shrinks_closed). Qed.

Lemma deliver_resolved c s r :
  deliver c s = Some r → ¬ contains (sender r) (call_id c).
Proof.
  intros Hr.
  destruct (decide (contains s (call_id c))) as [Hc|Hn].
  - apply owed_absent.
    pose proof (deliver_accounting (call_id c) c s r Hr) as Hacc.
    apply owed_contains in Hc. rewrite Hc in Hacc.
    assert (1 ≤ resolutions (call_id c) (trace r)); [|lia].
    apply owed_contains in Hc. destruct Hc as [handlers Hl].
    revert Hr. unfold deliver, resolutions.
    destruct c as [requestId result|policy requestId error|requestId];
      simpl in *.
    + unfold deliverDone. rewrite Hl.
      destruct (done handlers); [destruct (exec _ _ _); simpl|];
        intros [= <-]; simpl; rewrite ?bool_decide_eq_true_2 by done;
        simpl; lia.
    + unfold deliverFail. rewrite Hl.
      destruct (fail handlers); [destruct (suppressed _ _);
        [|destruct (exec _ _ _); simpl]|];
        intros [= <-]; simpl; rewrite ?bool_decide_eq_true_2 by done;
        simpl; lia.
    + unfold senderRequestCancel. rewrite Hl.
      intros [= <-]; simpl; rewrite ?bool_decide_eq_true_2 by done;
        simpl; lia.
  - eapply absent_stays; [|exact Hn]. by eapply deliver_shrinks.
Qed.

Lemma callback_calls_le X t : callback_calls X t ≤ resolutions X t.
Proof.
  unfold callback_calls, resolutions.
  induction t as [|ev t IH]; simpl; [done|].
  destruct ev; simpl; try destruct (bool_decide _); simpl; lia.
Qed.

Lemma callback_calls_app X t1 t2 :
  callback_calls X (t1 ++ t2) = callback_calls X t1 + callback_calls X t2.
Proof. unfold callback_calls. by rewrite List.filter_app, length_app. Qed.

Lemma invocations_app t1 t2 :
  invocations (t1 ++ t2) = invocations t1 ++ invocations t2.
Proof. apply List.filter_app. Qed.

(** *** Histories *)

Lemma step_total st s : is_Some (step st s).
Proof. destruct st; simpl; [done|apply deliver_total]. Qed.

Lemma play_total steps : ∀ s, is_Some (play steps s).
Proof.
  induction steps as [|st steps IH]; intros s; simpl; [done|].
  destruct (step_total st s) as [r Hr]. rewrite Hr; simpl.
  destruct (IH (sender r)) as [[s' t] Hrest]. by rewrite Hrest.
Qed.

Lemma step_accounting X st s r :
  ¬ submits X st → step st s = Some r →
  resolutions X (trace r) + owed X (sender r) = owed X s.
Proof.
  destruct st as [requestId handlers|c]; simpl; intros Hne.
  - intros [= <-]; simpl. unfold senderRequestRegister, owed.
    destruct (_requests s !! requestId); simpl; [done|].
    by rewrite lookup_insert_ne.
  - apply deliver_accounting.
Qed.

Lemma play_accounting X steps : ∀ s s' t,
  Forall (λ st, ¬ submits X st) steps →
  play steps s = Some (s', t) →
  resolutions X t + owed X s' = owed X s.
Proof.
  induction steps as [|st steps IH]; intros s s' t Hsteps; simpl.
  - by intros [= <- <-].
  - apply Forall_cons in Hsteps as [Hst Hsteps].
    destruct (step st s) as [r|] eqn:Hr; simpl; [|done].
    destruct (play steps (sender r)) as [[s1 t1]|] eqn:Hrest; simpl; [|done].
    intros [= <- <-]. rewrite resolutions_app.
    pose proof (step_accounting X st s r Hst Hr).
    pose proof (IH _ _ _ Hsteps Hrest). lia.
Qed.

Lemma play_absent_stays X steps s s' t :
  Forall (λ st, ¬ submits X st) steps →
  play steps s = Some (s', t) →
  ¬ contains s X → ¬ contains s' X.
Proof.
  intros Hsteps Hplay Hn. apply owed_absent. apply owed_absent in Hn.
  pose proof (play_accounting X steps s s' t Hsteps Hplay). lia.
Qed.

(** ** Exactly-once resolution *)

Lemma senderRequestDone_present s X handlers callback result :
  _requests s !! X = Some handlers →
  done handlers = Some callback →
  senderRequestDone X result s
  = after [DoneCalled X result] <$> run (callback X result) (erase X s).
Proof.
  intros Hl Hd. unfold senderRequestDone, deliverDone. rewrite Hl, Hd.
  f_equal. apply exec_enough.
  rewrite (size_erase X s) by (by eexists). lia.
Qed.

Lemma senderRequestFail_present s policy X handlers callback error :
  _requests s !! X = Some handlers →
  fail handlers = Some callback →
  suppressed policy error = false →
  senderRequestFail policy X error s
  = after [FailCalled X error] <$> run (callback X error) (erase X s).
Proof.
  intros Hl Hf Hs. unfold senderRequestFail, deliverFail. rewrite Hl, Hf, Hs.
  f_equal. apply exec_enough.
  rewrite (size_erase X s) by (by eexists). lia.
Qed.

Lemma run_absent_quiet X p s r :
  run p s = Some r → ¬ contains s X →
  resolutions X (trace r) = 0 ∧ callback_calls X (trace r) = 0.
Proof.
  intros Hr Hn. pose proof (exec_accounting X _ p s r Hr) as Hacc.
  apply owed_absent in Hn. pose proof (callback_calls_le X (trace r)). lia.
Qed.

(** C1.  For every request id X: a call of deliverDone, deliverFail or
    cancel for X leaves the registry without X; a call for an id that is
    not in the registry changes nothing and invokes no handler, and this is
    what every later call for X finds, whatever arrives and whatever other
    requests are submitted in between; deliverDone runs the done callback
    on the registry from which X has already been erased, so nothing the
    callback does, a delivery for X included, invokes a callback of X
    again; and over any history in which X is not submitted anew at most
    one terminal outcome of X is observed. *)
Theorem exactly_once_resolution (X : mtpRequestId) :
  (∀ c s, call_id c = X →
     ∃ r, deliver c s = Some r ∧ ¬ contains (sender r) X) ∧
  (∀ c s, call_id c = X → ¬ contains s X →
     ∃ r, deliver c s = Some r ∧ sender r = s ∧ outcome r = Normal ∧
          invocations (trace r) = []) ∧
  (∀ c steps c' s,
     call_id c = X → call_id c' = X →
     Forall (λ st, ¬ submits X st) steps →
     ∃ r s1 t1, deliver c s = Some r ∧
       play steps (sender r) = Some (s1, t1) ∧
       deliver c' s1 = Some (absent_result c' s1)) ∧
  (∀ s handlers callback result,
     _requests s !! X = Some handlers → done handlers = Some callback →
     ∃ r', run (callback X result) (erase X s) = Some r' ∧
       senderRequestDone X result s = Some (after [DoneCalled X result] r') ∧
       callback_calls X (trace r') = 0) ∧
  (∀ steps s,
     Forall (λ st, ¬ submits X st) steps →
     ∃ s' t, play steps s = Some (s', t) ∧
       resolutions X t ≤ 1 ∧ callback_calls X t ≤ 1 ∧
       (resolutions X t = 1 → ¬ contains s' X)).
Proof.
  split; [|split; [|split; [|split]]].
  - intros c s <-. destruct (deliver_total c s) as [r Hr].
    exists r. split; [done|]. by eapply deliver_resolved.
  - intros c s <- Hn. exists (absent_result c s).
    split; [by apply dispatch_absent|]. by destruct c.
  - intros c steps c' s <- Hc' Hsteps.
    destruct (deliver_total c s) as [r Hr].
    destruct (play_total steps (sender r)) as [[s1 t1] Hrest].
    exists r, s1, t1. split; [done|]. split; [done|].
    apply dispatch_absent. rewrite Hc'.
    eapply play_absent_stays; [exact Hsteps|exact Hrest|].
    by eapply deliver_resolved.
  - intros s handlers callback result Hl Hd.
    destruct (run_total (callback X result) (erase X s)) as [r' Hr'].
    exists r'. split; [done|]. split.
    + rewrite (senderRequestDone_present _ _ _ _ _ Hl Hd). by rewrite Hr'.
    + eapply run_absent_quiet; [exact Hr'|apply erase_absent].
  - intros steps s Hsteps.
    destruct (play_total steps s) as [[s' t] Hplay].
    exists s', t. split; [done|].
    pose proof (play_accounting X steps s s' t Hsteps Hplay) as Hacc.
    pose proof (owed_le_1 s X). pose proof (callback_calls_le X t).
    split; [lia|]. split; [lia|].
    intros H1. apply owed_absent. lia.
Qed.

(** ** Cancellation *)

Lemma invocations_dropped (ids : list mtpRequestId) :
  invocations (Dropped <$> ids) = [].
Proof. induction ids as [|requestId ids IH]; simpl; done. Qed.

Lemma play_nothing_pending cs : ∀ s,
  _requests s = ∅ →
  ∃ t, play (Arrive <$> cs) s = Some (s, t) ∧ invocations t = [].
Proof.
  induction cs as [|c cs IH]; intros s Hs.
  - by exists [].
  - assert (¬ contains s (call_id c)) as Hn.
    { apply not_contains_None. rewrite Hs. apply lookup_empty. }
    destruct (IH s Hs) as [t [Hplay Ht]].
    rewrite fmap_cons. cbn [play step]. unfold deliver.
    rewrite (dispatch_absent _ c s Hn). cbn [mbind option_bind].
    assert (sender (absent_result c s) = s) as -> by (by destruct c).
    rewrite Hplay. cbn [mbind option_bind].
    eexists. split; [done|]. rewrite invocations_app, Ht. by destruct c.
Qed.

(** C5.  cancelAll, which is what destroying the sender does, leaves the
    registry empty and invokes neither a callback nor a user handler,
    whatever requests were pending; and every call that arrives afterwards
    finds nothing, changes nothing and invokes nothing. *)
Theorem cancelAll_invokes_nothing (s : ConcurrentSender) :
  _requests (sender (destroy s)) = ∅ ∧
  outcome (destroy s) = Normal ∧
  invocations (trace (destroy s)) = [] ∧
  (∀ cs, ∃ t,
     play (Arrive <$> cs) (sender (destroy s)) = Some (sender (destroy s), t) ∧
     invocations t = []).
Proof.
  unfold destroy, senderRequestCancelAll; simpl.
  repeat split.
  - rewrite app_nil_r. apply invocations_dropped.
  - intros cs. by apply play_nothing_pending.
Qed.

Lemma senderRequestCancel_sender X s :
  sender (senderRequestCancel X s) = erase X s.
Proof.
  unfold senderRequestCancel.
  destruct (_requests s !! X) eqn:Hl; simpl; [done|].
  symmetry. apply erase_absent_id. by apply not_contains_None.
Qed.

Lemma senderRequestCancel_quiet X s :
  outcome (senderRequestCancel X s) = Normal ∧
  invocations (trace (senderRequestCancel X s)) = [].
Proof. unfold senderRequestCancel. by destruct (_requests s !! X). Qed.

(** C6.  cancel(id), reached through the request handle, removes the entry
    for the id if there is one and invokes neither callback; cancelling the
    same id again, cancelling an id that was never registered, or
    cancelling an id that a delivery or a cancellation has already resolved
    leaves the registry as it is and invokes no callback. *)
Theorem cancel_idempotent (X : mtpRequestId) (s : ConcurrentSender) :
  let cancel := SentRequestWrap_cancel (sent_request X) in
  _requests (sender (cancel s)) = delete X (_requests s) ∧
  outcome (cancel s) = Normal ∧
  invocations (trace (cancel s)) = [] ∧
  sender (cancel (sender (cancel s))) = sender (cancel s) ∧
  invocations (trace (cancel (sender (cancel s)))) = [] ∧
  (¬ contains s X → sender (cancel s) = s) ∧
  (∀ c r, call_id c = X → deliver c s = Some r →
     sender (cancel (sender r)) = sender r ∧
     invocations (trace (cancel (sender r))) = []).
Proof.
  unfold SentRequestWrap_cancel, sent_request; simpl.
  rewrite !senderRequestCancel_sender.
  repeat split; try apply senderRequestCancel_quiet.
  - apply erase_absent_id, erase_absent.
  - apply erase_absent_id.
  - rewrite senderRequestCancel_sender. apply erase_absent_id.
    subst X. by eapply deliver_resolved.
Qed.

(** ** The adapters *)

Lemma entries_body_exec (b : Body) : entries (body_exec b) = [].
Proof.
  unfold body_exec. induction (calls b) as [|c cs IH]; simpl; [|done].
  by destruct (throws b).
Qed.

Lemma entries_invoke u (b : Body) : entries (invoke u b) = [u].
Proof. unfold invoke; simpl. by rewrite entries_body_exec. Qed.

Lemma run_invoke u (b : Body) s :
  run (invoke u b) s = after [UserEntered u] <$> run (body_exec b) s.
Proof. unfold run, invoke. by rewrite exec_unfold. Qed.

Lemma done_match_builds handler sel b :
  done_match handler sel →
  SpecificRequestBuilder_done handler b
  = Some (setDoneHandler
            (λ requestId result,
               invoke (UserDone (sel requestId result).1) (sel requestId result).2)
            b).
Proof.
  unfold SpecificRequestBuilder_done.
  destruct 1 as [f H1|f H1 H2|f H1 H2 H3|f H1 H2 H3 H4];
    rewrite ?H1, ?H2, ?H3, ?H4; reflexivity.
Qed.

Lemma fail_match_builds handler sel b :
  fail_match handler sel →
  SpecificRequestBuilder_fail handler b
  = Some (setFailHandler
            (λ requestId error,
               invoke (UserFail (sel requestId error).1) (sel requestId error).2)
            b).
Proof.
  unfold SpecificRequestBuilder_fail.
  destruct 1 as [f H1|f H1 H2|f H1 H2 H3|f H1 H2 H3 H4];
    rewrite ?H1, ?H2, ?H3, ?H4; reflexivity.
Qed.

Lemma done_accepted_match handler b b' :
  SpecificRequestBuilder_done handler b = Some b' →
  ∃ sel, done_match handler sel.
Proof.
  unfold SpecificRequestBuilder_done.
  destruct (done_full handler) as [f1|] eqn:H1;
    [intros _; eexists; by apply done_match_full|].
  destruct (done_response handler) as [f2|] eqn:H2;
    [intros _; eexists; by apply done_match_response|].
  destruct (done_requestId handler) as [f3|] eqn:H3;
    [intros _; eexists; by apply done_match_requestId|].
  destruct (done_none handler) as [f4|] eqn:H4;
    [intros _; eexists; by apply done_match_none|].
  done.
Qed.

Lemma fail_accepted_match handler b b' :
  SpecificRequestBuilder_fail handler b = Some b' →
  ∃ sel, fail_match handler sel.
Proof.
  unfold SpecificRequestBuilder_fail.
  destruct (fail_full handler) as [f1|] eqn:H1;
    [intros _; eexists; by apply fail_match_full|].
  destruct (fail_error handler) as [f2|] eqn:H2;
    [intros _; eexists; by apply fail_match_error|].
  destruct (fail_requestId handler) as [f3|] eqn:H3;
    [intros _; eexists; by apply fail_match_requestId|].
  destruct (fail_none handler) as [f4|] eqn:H4;
    [intros _; eexists; by apply fail_match_none|].
  done.
Qed.

Lemma entries_done_closure_decoded invokeFull requestId result data :
  read (prime_range result) = inr data →
  entries (done_closure invokeFull requestId result)
  = entries (invokeFull requestId data).
Proof.
  intros Hread. unfold done_closure. rewrite Hread. simpl. apply app_nil_r.
Qed.

Lemma entries_done_closure_failed invokeFull requestId result e :
  read (prime_range result) = inl e →
  entries (done_closure invokeFull requestId result) = [].
Proof. intros Hread. unfold done_closure. by rewrite Hread. Qed.

Lemma run_done_closure_invoke u (body : Body) invokeFull requestId result data s :
  read (prime_range result) = inr data →
  invokeFull requestId data = invoke u body →
  run (done_closure invokeFull requestId result) s
  = absorbed <$> (after [UserEntered u] <$> run (body_exec body) s).
Proof.
  intros Hread Hinv.
  destruct (run_total (invokeFull requestId data) s) as [r0 Hr0].
  unfold run, done_closure in *. rewrite Hread.
  rewrite exec_unfold, Hr0; simpl. rewrite exec_unfold; simpl.
  rewrite Hinv in Hr0. unfold invoke in Hr0. rewrite exec_unfold in Hr0.
  rewrite Hr0; simpl.
  unfold absorbed, after; simpl. by rewrite app_nil_r.
Qed.

(** C3.  A done handler whose first match among (id, response), (response),
    (id), () determines its call, and a fail handler likewise with the error
    in place of the response, are accepted by done() and fail() and stored
    behind the canonical two-argument callback.  Run on an id and bytes
    that decode to a response, the stored done callback is one call of the
    user handler with the arguments of the matched shape, taken from that
    id and the decoded response: it makes that call, no other call of a
    user handler, does what the handler's body does and returns (and on
    bytes that do not decode it makes no call).  Run on (id, error), the
    stored fail callback is one call of the user handler with the arguments
    of the matched shape, and then does what the handler's body does. *)
Theorem adapters_call_first_match (handler : DoneCallable)
    (fhandler : FailCallable) sel fsel (b : RequestBuilder) :
  done_match handler sel →
  fail_match fhandler fsel →
  (∃ invokeFull callback,
     SpecificRequestBuilder_done handler b = Some (setDoneHandler invokeFull b) ∧
     done (_handlers (setDoneHandler invokeFull b))
     = Some (done_closure invokeFull) ∧
     done (_handlers (setDoneHandler invokeFull b)) = Some callback ∧
     (∀ requestId result s,
        invokeFull requestId result
        = invoke (UserDone (sel requestId result).1) (sel requestId result).2 ∧
        entries (invokeFull requestId result)
        = [UserDone (sel requestId result).1] ∧
        run (invokeFull requestId result) s
        = after [UserEntered (UserDone (sel requestId result).1)]
            <$> run (body_exec (sel requestId result).2) s) ∧
     (∀ requestId result data s,
        read (prime_range result) = inr data →
        entries (callback requestId result)
        = [UserDone (sel requestId data).1] ∧
        run (callback requestId result) s
        = absorbed
            <$> (after [UserEntered (UserDone (sel requestId data).1)]
                   <$> run (body_exec (sel requestId data).2) s)) ∧
     (∀ requestId result e,
        read (prime_range result) = inl e →
        entries (callback requestId result) = [])) ∧
  (∃ invokeFull,
     SpecificRequestBuilder_fail fhandler b = Some (setFailHandler invokeFull b) ∧
     fail (_handlers (setFailHandler invokeFull b)) = Some invokeFull ∧
     ∀ requestId error s,
       invokeFull requestId error
       = invoke (UserFail (fsel requestId error).1) (fsel requestId error).2 ∧
       entries (invokeFull requestId error)
       = [UserFail (fsel requestId error).1] ∧
       run (invokeFull requestId error) s
       = after [UserEntered (UserFail (fsel requestId error).1)]
           <$> run (body_exec (fsel requestId error).2) s).
Proof.
  intros Hd Hf. split.
  - eexists _, _. split; [by apply done_match_builds|]. split; [done|].
    split; [reflexivity|]. split; [|split].
    + intros requestId result s. simpl.
      split; [done|]. split; [apply entries_invoke|apply run_invoke].
    + intros requestId result data s Hread. split.
      * rewrite (entries_done_closure_decoded _ _ _ _ Hread).
        apply entries_invoke.
      * eapply run_done_closure_invoke; [exact Hread|reflexivity].
    + intros requestId result e Hread.
      by eapply entries_done_closure_failed.
  - eexists. split; [by apply fail_match_builds|]. split; [done|].
    intros requestId error s. simpl.
    split; [done|]. split; [apply entries_invoke|apply run_invoke].
Qed.

(** C7.  A handler whose call operator accepts none of the four argument
    lists is rejected by done(), respectively fail(): no builder comes
    back, so there is nothing to send.  That is the only way a handler is
    rejected, and a handler that is accepted is stored: the callback of the
    builder that comes back is set. *)
Theorem unmatched_handler_rejected (handler : DoneCallable)
    (fhandler : FailCallable) (b : RequestBuilder) :
  (SpecificRequestBuilder_done handler b = None ↔ no_done_shape handler) ∧
  (SpecificRequestBuilder_fail fhandler b = None ↔ no_fail_shape fhandler) ∧
  (∀ b', SpecificRequestBuilder_done handler b = Some b' →
     is_Some (done (_handlers b')) ∧ ∃ sel, done_match handler sel) ∧
  (∀ b', SpecificRequestBuilder_fail fhandler b = Some b' →
     is_Some (fail (_handlers b')) ∧ ∃ fsel, fail_match fhandler fsel).
Proof.
  split; [|split; [|split]].
  - unfold SpecificRequestBuilder_done, no_done_shape.
    destruct (done_full handler), (done_response handler),
      (done_requestId handler), (done_none handler); simpl;
      intuition congruence.
  - unfold SpecificRequestBuilder_fail, no_fail_shape.
    destruct (fail_full fhandler), (fail_error fhandler),
      (fail_requestId fhandler), (fail_none fhandler); simpl;
      intuition congruence.
  - intros b' Hb. destruct (done_accepted_match _ _ _ Hb) as [sel Hsel].
    split; [|by exists sel].
    rewrite (done_match_builds _ _ b Hsel) in Hb. by injection Hb as <-.
  - intros b' Hb. destruct (fail_accepted_match _ _ _ Hb) as [fsel Hsel].
    split; [|by exists fsel].
    rewrite (fail_match_builds _ _ b Hsel) in Hb. by injection Hb as <-.
Qed.

(** ** The done closure *)

Lemma run_done_closure_failed invokeFull requestId result e s :
  read (prime_range result) = inl e →
  run (done_closure invokeFull requestId result) s = Some (finish Normal s).
Proof.
  intros Hread. unfold run, done_closure. rewrite Hread.
  rewrite exec_unfold. rewrite (exec_unfold _ (Throw e)); simpl.
  by rewrite exec_unfold.
Qed.

Lemma run_done_closure_decoded invokeFull requestId result data s r0 :
  read (prime_range result) = inr data →
  run (invokeFull requestId data) s = Some r0 →
  run (done_closure invokeFull requestId result) s = Some (absorbed r0).
Proof.
  intros Hread Hr0. unfold run, done_closure in *. rewrite Hread.
  rewrite exec_unfold, Hr0; simpl. rewrite exec_unfold; simpl.
  unfold absorbed, after; simpl. by rewrite app_nil_r.
Qed.

Lemma run_done_closure_normal invokeFull requestId result s :
  ∃ r, run (done_closure invokeFull requestId result) s = Some r ∧
       outcome r = Normal.
Proof.
  destruct (read (prime_range result)) as [e|data] eqn:Hread.
  - eexists. split; [by eapply run_done_closure_failed|done].
  - destruct (run_total (invokeFull requestId data) s) as [r0 Hr0].
    eexists. split; [by eapply run_done_closure_decoded|done].
Qed.

Lemma done_accepted_closure handler b b' :
  SpecificRequestBuilder_done handler b = Some b' →
  ∃ sel, done_match handler sel ∧
    done (_handlers b')
    = Some (done_closure
              (λ requestId result,
                 invoke (UserDone (sel requestId result).1)
                        (sel requestId result).2)).
Proof.
  intros Hb. destruct (done_accepted_match _ _ _ Hb) as [sel Hsel].
  exists sel. split; [done|].
  rewrite (done_match_builds _ _ b Hsel) in Hb. by injection Hb as <-.
Qed.

(** C2.  For every done handler that done() accepts and stores: when the
    result bytes do not decode, the stored done callback does nothing at
    all, it returns normally, leaves the sender as it is and calls no user
    handler; and a done delivery to a request holding that callback erases
    the entry, invokes the callback, ends normally and calls no user
    handler. *)
Theorem decode_failure_is_silent (handler : DoneCallable)
    (b b' : RequestBuilder) (requestId : mtpRequestId) (result : const_span)
    (e : Exception) :
  SpecificRequestBuilder_done handler b = Some b' →
  read (prime_range result) = inl e →
  ∃ callback,
    done (_handlers b') = Some callback ∧
    (∀ s, run (callback requestId result) s = Some (finish Normal s)) ∧
    (∀ s handlers,
       _requests s !! requestId = Some handlers →
       done handlers = Some callback →
       senderRequestDone requestId result s
       = Some {| outcome := Normal;
                 sender := erase requestId s;
                 trace := [DoneCalled requestId result] |}).
Proof.
  intros Hb Hread.
  destruct (done_accepted_closure _ _ _ Hb) as (sel & _ & Hcallback).
  eexists. split; [exact Hcallback|]. split.
  - intros s. by eapply run_done_closure_failed.
  - intros s handlers Hl Hd.
    rewrite (senderRequestDone_present _ _ _ _ _ Hl Hd).
    by rewrite (run_done_closure_failed _ _ _ _ _ Hread).
Qed.

(** C9.  The try block of the done closure encloses the call of the user's
    handler: when the bytes decode, the stored callback does exactly what
    the call of the handler does with the decoded response, the same calls
    and the same effect on the sender, except that it returns normally
    whatever the outcome of the handler was, a thrown exception included;
    so a done delivery to a request holding that callback ends normally
    too. *)
Theorem handler_exception_is_absorbed (handler : DoneCallable) sel
    (b : RequestBuilder) (requestId : mtpRequestId) (result : const_span)
    (data : Response) (s : ConcurrentSender) (r0 : Result) :
  done_match handler sel →
  read (prime_range result) = inr data →
  run (invoke (UserDone (sel requestId data).1) (sel requestId data).2) s
  = Some r0 →
  ∃ b' callback,
    SpecificRequestBuilder_done handler b = Some b' ∧
    done (_handlers b') = Some callback ∧
    run (callback requestId result) s = Some (absorbed r0) ∧
    outcome (absorbed r0) = Normal ∧
    (∀ s' handlers,
       _requests s' !! requestId = Some handlers →
       done handlers = Some callback →
       ∃ r, senderRequestDone requestId result s' = Some r ∧
            outcome r = Normal).
Proof.
  intros Hsel Hread Hr0. eexists _, _.
  split; [by apply done_match_builds|]. split; [done|].
  split; [by eapply run_done_closure_decoded|]. split; [done|].
  intros s' handlers Hl Hd.
  rewrite (senderRequestDone_present _ _ _ _ _ Hl Hd).
  edestruct run_done_closure_normal as (r & -> & Hr).
  by eexists.
Qed.


(** ** The failure policy *)

Lemma select_policy_handlers policy b :
  _handlers (select_policy policy b) = _handlers b.
Proof. by destruct policy. Qed.

Lemma select_policy_default policy invokeFull (req : Request) :
  _failSkipPolicy (select_policy policy (setFailHandler invokeFull (request req)))
  = policy.
Proof. by destruct policy. Qed.

Lemma send_registers b requestId s s1 sub :
  RequestBuilder_send b requestId s = Some (s1, sub) →
  _requests s1 !! requestId = Some (_handlers b) ∧
  sub_requestId sub = requestId ∧
  sub_policy sub = _failSkipPolicy b ∧
  sub_afterRequestId sub = _afterRequestId b.
Proof.
  unfold RequestBuilder_send, senderRequestRegister.
  destruct (_requests s !! requestId); simpl; [done|].
  intros [= <- <-]; simpl. by rewrite lookup_insert_eq.
Qed.

(** C4.  A request is built with a fail handler of a recognized shape and
    a policy selected on the builder (handleAllErrors, handleFloodErrors, or
    neither for Simple), then sent, and the transport delivers a failure
    for it.  If the policy suppresses the error the entry is dropped and
    nothing is invoked; otherwise the fail callback is invoked exactly once
    and calls the user handler.  HandleAll suppresses no error; a flood
    error is not suppressed by HandleFlood and is suppressed by Simple. *)
Theorem fail_policy_decides (policy : FailSkipPolicy) (req : Request)
    (fhandler : FailCallable) (b : RequestBuilder)
    (requestId : mtpRequestId) (s s1 : ConcurrentSender) (sub : Submission)
    (error : RPCError) :
  SpecificRequestBuilder_fail fhandler (request req) = Some b →
  RequestBuilder_send (select_policy policy b) requestId s = Some (s1, sub) →
  ∃ r,
    transportFail sub error s1 = Some r ∧
    ¬ contains (sender r) requestId ∧
    (if suppressed policy error
     then trace r = [Dropped requestId]
     else fail_invoked_once requestId error r) ∧
    suppressed HandleAll error = false ∧
    (isFlood error = true →
       suppressed HandleFlood error = false ∧ suppressed Simple error = true).
Proof.
  intros Hb Hsend.
  destruct (fail_accepted_match _ _ _ Hb) as [fsel Hsel].
  rewrite (fail_match_builds _ _ _ Hsel) in Hb. injection Hb as <-.
  apply send_registers in Hsend as (Hl & Hid & Hpol & _).
  rewrite select_policy_handlers in Hl.
  rewrite select_policy_default in Hpol.
  unfold transportFail. rewrite Hid, Hpol.
  assert (suppressed HandleAll error = false ∧
          (isFlood error = true →
             suppressed HandleFlood error = false ∧
             suppressed Simple error = true)) as Hclasses.
  { split; [done|]. simpl. by intros ->. }
  destruct (suppressed policy error) eqn:Hsup.
  - eexists. split.
    { unfold senderRequestFail, deliverFail. rewrite Hl; simpl.
      by rewrite Hsup. }
    simpl. split; [apply erase_absent|]. by split.
  - rewrite (senderRequestFail_present _ _ _ _ _ _ Hl eq_refl Hsup).
    rewrite run_invoke.
    destruct (run_total (body_exec (fsel requestId error).2)
                (erase requestId s1)) as [r1 Hr1].
    rewrite Hr1; simpl. eexists. split; [done|].
    destruct (run_absent_quiet requestId _ _ _ Hr1 (erase_absent _ _))
      as [_ Hquiet].
    split; [|split; [|done]].
    + simpl. eapply absent_stays; [by eapply exec_shrinks|apply erase_absent].
    + eexists _, _. split; [reflexivity|].
      unfold callback_calls in *; simpl.
      rewrite bool_decide_eq_true_2 by done. simpl. by rewrite Hquiet.
Qed.

(** ** The span and the range of primes *)

Lemma primes_from_app n m : ∀ from rest,
  length from = 4 * n →
  primes_from (n + m) (from ++ rest) = primes_from n from ++ primes_from m rest.
Proof.
  induction n as [|n IH]; intros from rest Hlen.
  - by destruct from.
  - destruct from as [|b0 [|b1 [|b2 [|b3 from]]]]; simpl in Hlen; try lia.
    simpl. f_equal. apply IH. lia.
Qed.

Lemma prime_range_short (tail : const_span) :
  length tail < 4 → prime_range tail = [].
Proof.
  intros Hlen. unfold prime_range, sizeof_mtpPrime.
  by rewrite Nat.div_small.
Qed.

Lemma prime_range_at_boundary (n : nat) (from rest : const_span) :
  length from = 4 * n →
  prime_range (from ++ rest) = prime_range from ++ prime_range rest.
Proof.
  intros Hlen. unfold prime_range, sizeof_mtpPrime.
  rewrite length_app, Hlen.
  replace (4 * n + length rest) with (n * 4 + length rest) by lia.
  rewrite Nat.div_add_l by done.
  replace (4 * n / 4) with n by (rewrite Nat.mul_comm, Nat.div_mul; done).
  by apply primes_from_app.
Qed.

(** X1.  The primes are read one after another from the front of the span:
    when the first part of a span ends on a prime boundary, the range of
    the whole span is the range of the first part followed by the range of
    the rest, and the first part alone gives its [n] primes. *)
Theorem prime_range_app (n : nat) (from rest : const_span) :
  length from = 4 * n →
  prime_range (from ++ rest) = prime_range from ++ prime_range rest ∧
  length (prime_range from) = n.
Proof.
  intros Hlen. split; [by apply (prime_range_at_boundary n)|].
  rewrite prime_range_length, Hlen. unfold sizeof_mtpPrime.
  by rewrite Nat.mul_comm, Nat.div_mul.
Qed.

(** X2.  The range handed to [read] holds exactly as many primes as fit in
    the span: it never reaches past the end of the span, and fewer than
    four bytes are left behind it. *)
Theorem prime_range_within_span (result : const_span) :
  length (prime_range result) = length result / 4 ∧
  4 * length (prime_range result) ≤ length result ∧
  length result < 4 * length (prime_range result) + 4.
Proof.
  rewrite prime_range_length. unfold sizeof_mtpPrime.
  split; [done|]. split.
  - apply Nat.Div0.mul_div_le.
  - pose proof (Nat.div_mod_eq (length result) 4).
    pose proof (Nat.mod_upper_bound (length result) 4). lia.
Qed.

(** X3.  Bytes behind the last whole prime are never looked at: the done
    callback that setDoneHandler stores is the same code for a span and
    for that span followed by up to three more bytes. *)
Theorem trailing_bytes_are_ignored
    (invokeFull : mtpRequestId → Response → Exec) (b : RequestBuilder)
    (requestId : mtpRequestId) (n : nat) (result tail : const_span) :
  length result = 4 * n →
  length tail < 4 →
  ∃ callback,
    done (_handlers (setDoneHandler invokeFull b)) = Some callback ∧
    callback requestId (result ++ tail) = callback requestId result.
Proof.
  intros Hlen Htail. eexists. split; [reflexivity|].
  unfold done_closure.
  by rewrite (prime_range_at_boundary n), (prime_range_short tail), app_nil_r.
Qed.

Lemma byte_val_bounds (b : Byte.byte) : (0 ≤ byte_val b < 2 ^ 8)%Z.
Proof.
  unfold byte_val. pose proof (Byte.to_N_bounded b). lia.
Qed.

Lemma lor_bounds (a b n : Z) :
  (0 ≤ n → 0 ≤ a < 2 ^ n → 0 ≤ b < 2 ^ n → 0 ≤ Z.lor a b < 2 ^ n)%Z.
Proof.
  intros Hn Ha Hb.
  assert (0 ≤ Z.lor a b)%Z as Hnonneg by (apply Z.lor_nonneg; lia).
  split; [done|].
  destruct (Z.eq_dec (Z.lor a b) 0%Z) as [->|Hne].
  - apply Z.pow_pos_nonneg; lia.
  - assert (0 < n)%Z as Hpos.
    { destruct (Z.eq_dec n 0%Z) as [->|?]; [|lia].
      assert (a = 0%Z) as -> by lia. assert (b = 0%Z) as -> by lia.
      done. }
    apply Z.log2_lt_pow2; [lia|].
    rewrite Z.log2_lor by lia.
    apply Z.max_lub_lt.
    + destruct (Z.eq_dec a 0%Z) as [->|?]; [simpl; lia|].
      apply Z.log2_lt_pow2; lia.
    + destruct (Z.eq_dec b 0%Z) as [->|?]; [simpl; lia|].
      apply Z.log2_lt_pow2; lia.
Qed.

Lemma shifted_byte_bounds (b : Byte.byte) (k : Z) :
  (0 ≤ k ≤ 24 → 0 ≤ Z.shiftl (byte_val b) k < 2 ^ 32)%Z.
Proof.
  intros Hk. pose proof (byte_val_bounds b) as Hb.
  rewrite Z.shiftl_mul_pow2 by lia.
  assert (0 < 2 ^ k)%Z by (apply Z.pow_pos_nonneg; lia).
  split; [nia|].
  apply Z.lt_le_trans with (2 ^ 8 * 2 ^ k)%Z; [nia|].
  rewrite <- Z.pow_add_r by lia.
  apply Z.pow_le_mono_r; lia.
Qed.

Lemma prime_of_bytes_bounds (b0 b1 b2 b3 : Byte.byte) :
  (- 2 ^ 31 ≤ prime_of_bytes b0 b1 b2 b3 < 2 ^ 31)%Z.
Proof.
  unfold prime_of_bytes.
  pose proof (shifted_byte_bounds b0 0) as H0. rewrite Z.shiftl_0_r in H0.
  pose proof (shifted_byte_bounds b1 8).
  pose proof (shifted_byte_bounds b2 16).
  pose proof (shifted_byte_bounds b3 24).
  match goal with
  | |- context [Z.lor (byte_val b0) ?rest] =>
      assert (0 ≤ Z.lor (byte_val b0) rest < 2 ^ 32)%Z as Hu
  end.
  { repeat apply lor_bounds; lia. }
  cbv zeta. destruct (Z.ltb_spec
    (Z.lor (byte_val b0) (Z.lor (Z.shiftl (byte_val b1) 8)
       (Z.lor (Z.shiftl (byte_val b2) 16) (Z.shiftl (byte_val b3) 24))))
    (2 ^ 31)); lia.
Qed.

(** X4.  Every prime handed to [read] is a 32-bit signed value, whatever
    the bytes of the span are. *)
Theorem prime_range_int32 (result : const_span) :
  Forall (λ prime, - 2 ^ 31 ≤ prime < 2 ^ 31)%Z (prime_range result).
Proof.
  unfold prime_range. generalize (length result / sizeof_mtpPrime) as count.
  intros count. revert result.
  induction count as [|n IH]; intros result; [by constructor|].
  destruct result as [|b0 [|b1 [|b2 [|b3 rest]]]]; simpl;
    try by constructor.
  constructor; [apply prime_of_bytes_bounds|apply IH].
Qed.

(** ** How done() and fail() compose *)

(** X5.  done() and fail() can be chained in either order: both orders
    give the same builder, and both are refused when either handler is. *)
Theorem done_fail_commute (handler : DoneCallable) (fhandler : FailCallable)
    (b : RequestBuilder) :
  SpecificRequestBuilder_done handler b ≫= SpecificRequestBuilder_fail fhandler
  = SpecificRequestBuilder_fail fhandler b ≫= SpecificRequestBuilder_done handler.
Proof.
  unfold SpecificRequestBuilder_done, SpecificRequestBuilder_fail.
  destruct (done_full handler), (done_response handler),
    (done_requestId handler), (done_none handler),
    (fail_full fhandler), (fail_error fhandler),
    (fail_requestId fhandler), (fail_none fhandler); reflexivity.
Qed.

(** X6.  A second done() replaces the handler of the first, and a second
    fail() likewise: the builder that comes back is the one the second call
    alone would have given, and the second handler is refused exactly when
    it would have been refused alone. *)
Theorem last_handler_wins (first second : DoneCallable)
    (ffirst fsecond : FailCallable) (b b1 b2 : RequestBuilder) :
  SpecificRequestBuilder_done first b = Some b1 →
  SpecificRequestBuilder_fail ffirst b = Some b2 →
  SpecificRequestBuilder_done second b1 = SpecificRequestBuilder_done second b ∧
  SpecificRequestBuilder_fail fsecond b2 = SpecificRequestBuilder_fail fsecond b.
Proof.
  intros Hb1 Hb2.
  destruct (done_accepted_match _ _ _ Hb1) as [sel Hsel].
  rewrite (done_match_builds _ _ b Hsel) in Hb1. injection Hb1 as <-.
  destruct (fail_accepted_match _ _ _ Hb2) as [fsel Hfsel].
  rewrite (fail_match_builds _ _ b Hfsel) in Hb2. injection Hb2 as <-.
  split.
  - unfold SpecificRequestBuilder_done.
    destruct (done_full second), (done_response second),
      (done_requestId second), (done_none second); reflexivity.
  - unfold SpecificRequestBuilder_fail.
    destruct (fail_full fsecond), (fail_error fsecond),
      (fail_requestId fsecond), (fail_none fsecond); reflexivity.
Qed.

(** X7.  done() sets the done callback and nothing else, fail() the fail
    callback and nothing else: the other callback, the serialized request,
    the target, the delay, the policy and the request to wait for are the
    ones the builder had. *)
Theorem handlers_set_nothing_else (handler : DoneCallable)
    (fhandler : FailCallable) (b b1 b2 : RequestBuilder) :
  SpecificRequestBuilder_done handler b = Some b1 →
  SpecificRequestBuilder_fail fhandler b = Some b2 →
  (fail (_handlers b1) = fail (_handlers b) ∧
   _serialized b1 = _serialized b ∧ _dcId b1 = _dcId b ∧
   _canWait b1 = _canWait b ∧ _failSkipPolicy b1 = _failSkipPolicy b ∧
   _afterRequestId b1 = _afterRequestId b) ∧
  (done (_handlers b2) = done (_handlers b) ∧
   _serialized b2 = _serialized b ∧ _dcId b2 = _dcId b ∧
   _canWait b2 = _canWait b ∧ _failSkipPolicy b2 = _failSkipPolicy b ∧
   _afterRequestId b2 = _afterRequestId b).
Proof.
  intros Hb1 Hb2.
  destruct (done_accepted_match _ _ _ Hb1) as [sel Hsel].
  rewrite (done_match_builds _ _ b Hsel) in Hb1. injection Hb1 as <-.
  destruct (fail_accepted_match _ _ _ Hb2) as [fsel Hfsel].
  rewrite (fail_match_builds _ _ b Hfsel) in Hb2. injection Hb2 as <-.
  repeat split.
Qed.

(** ** What the stored callbacks let through *)

Lemma exec_throwing_body e depth : ∀ cs s r,
  exec depth (foldr Reenter (Throw e) cs) s = Some r →
  ∃ e', outcome r = Raised e'.
Proof.
  induction cs as [|c cs IH]; intros s r; simpl; rewrite exec_unfold.
  - intros [= <-]. by eexists.
  - destruct (dispatch (below depth) c s) as [r1|]; simpl; [|done].
    destruct (outcome r1) as [|e1] eqn:Ho.
    + destruct (exec depth _ (sender r1)) as [r2|] eqn:Hk; simpl; [|done].
      intros [= <-]. simpl. by eapply IH.
    + intros [= <-]. by eexists.
Qed.

(** X8.  setFailHandler stores the handler as it is, with no try block
    around it: when the user's fail handler throws, the stored fail
    callback throws.  If the handler makes no call into the sender before
    it throws, the callback is the call of the handler followed by that
    very exception, and the sender is untouched. *)
Theorem fail_handler_exception_propagates (fhandler : FailCallable) fsel
    (b : RequestBuilder) (requestId : mtpRequestId) (error : RPCError)
    (e : Exception) (s : ConcurrentSender) :
  fail_match fhandler fsel →
  throws (fsel requestId error).2 = Some e →
  ∃ b' callback r e',
    SpecificRequestBuilder_fail fhandler b = Some b' ∧
    fail (_handlers b') = Some callback ∧
    run (callback requestId error) s = Some r ∧
    outcome r = Raised e' ∧
    (calls (fsel requestId error).2 = [] →
     r = {| outcome := Raised e; sender := s;
            trace := [UserEntered (UserFail (fsel requestId error).1)] |}).
Proof.
  intros Hsel Hthrows.
  destruct (run_total
    (invoke (UserFail (fsel requestId error).1) (fsel requestId error).2) s)
    as [r Hr].
  assert (∃ e', outcome r = Raised e') as [e' He'].
  { rewrite run_invoke in Hr. unfold run, body_exec in Hr. rewrite Hthrows in Hr.
    destruct (exec _ _ s) as [r1|] eqn:Hbody; simpl in Hr; [|done].
    injection Hr as <-. simpl. by eapply exec_throwing_body. }
  eexists _, _, r, e'.
  split; [by apply fail_match_builds|]. split; [done|].
  split; [exact Hr|]. split; [exact He'|].
  intros Hcalls. rewrite run_invoke in Hr.
  unfold run, body_exec in Hr. rewrite Hthrows, Hcalls in Hr. simpl in Hr.
  rewrite exec_unfold in Hr. simpl in Hr. by injection Hr as <-.
Qed.

(** X9.  A done handler that takes only the id, or nothing, never sees the
    response: for any two results that both decode, whatever they decode
    to, the stored done callback is the same code. *)
Theorem unused_response_is_irrelevant (handler : DoneCallable) sel
    (b : RequestBuilder) (requestId : mtpRequestId)
    (result1 result2 : const_span) (data1 data2 : Response) :
  done_full handler = None →
  done_response handler = None →
  done_match handler sel →
  read (prime_range result1) = inr data1 →
  read (prime_range result2) = inr data2 →
  ∃ b' callback,
    SpecificRequestBuilder_done handler b = Some b' ∧
    done (_handlers b') = Some callback ∧
    callback requestId result1 = callback requestId result2.
Proof.
  intros Hfull Hresponse Hsel Hread1 Hread2. eexists _, _.
  split; [by apply done_match_builds|]. split; [done|].
  unfold done_closure. rewrite Hread1, Hread2.
  destruct Hsel as [f H1|f H1 H2|f H1 H2 H3|f H1 H2 H3 H4];
    [congruence|congruence|reflexivity|reflexivity].
Qed.

End Sender.

(** ** Examples *)

(** Three bytes hold no prime, so the read fails and a handler that would
    throw is never reached. *)
Lemma decode_failure_is_silent_example :
  let result := [Byte.x2a; Byte.x00; Byte.x00] in
  let throwing := λ (_ : mtpRequestId) (_ : Z),
        {| calls := @nil (Call (RPCError:=Z)); throws := Some (Thrown 1) |} in
  let handler := {| done_full := Some throwing; done_response := None;
                    done_requestId := None; done_none := None |} in
  let s := {| _requests := ∅ |} in
  example_read (prime_range result) = inl (Thrown 0) ∧
  run example_isFlood example_handledElsewhere
    (done_closure example_read (done_adapter_full throwing) 7 result) s
  = Some (finish Normal s).
Proof.
  intros result throwing handler s.
  split; [reflexivity|].
  destruct (decode_failure_is_silent example_isFlood example_handledElsewhere
              example_read handler
              (request example_serialize 0)
              (setDoneHandler example_read (done_adapter_full throwing)
                 (request example_serialize 0))
              7 result (Thrown 0) eq_refl eq_refl)
    as (callback & Hcb & Hrun & _).
  injection Hcb as <-. apply Hrun.
Defined.

(** The bytes decode to 42 and the handler throws: it was called, and the
    stored callback returns normally. *)
Lemma handler_exception_is_absorbed_example :
  let result := [Byte.x2a; Byte.x00; Byte.x00; Byte.x00] in
  let throwing := λ (_ : mtpRequestId) (_ : Z),
        {| calls := @nil (Call (RPCError:=Z)); throws := Some (Thrown 1) |} in
  let handler := {| done_full := Some throwing; done_response := None;
                    done_requestId := None; done_none := None |} in
  let s := {| _requests := ∅ |} in
  example_read (prime_range result) = inr 42 ∧
  run example_isFlood example_handledElsewhere
    (invoke (UserDone (DoneFull 7 42)) (throwing 7 42)) s
  = Some {| outcome := Raised (Thrown 1); sender := s;
            trace := [UserEntered (UserDone (DoneFull 7 42))] |} ∧
  run example_isFlood example_handledElsewhere
    (done_closure example_read (done_adapter_full throwing) 7 result) s
  = Some {| outcome := Normal; sender := s;
            trace := [UserEntered (UserDone (DoneFull 7 42))] |}.
Proof.
  intros result throwing handler s.
  assert (run example_isFlood example_handledElsewhere
            (invoke (UserDone (DoneFull 7 42)) (throwing 7 42)) s
          = Some {| outcome := Raised (Thrown 1); sender := s;
                    trace := [UserEntered (UserDone (DoneFull 7 42))] |})
    as Hthrows by reflexivity.
  split; [reflexivity|]. split; [exact Hthrows|].
  destruct (handler_exception_is_absorbed
              example_isFlood example_handledElsewhere example_read
              handler (λ requestId data, (DoneFull requestId data,
                                          throwing requestId data))
              (request example_serialize 0) 7 result 42 s _
              (done_match_full handler throwing eq_refl) eq_refl Hthrows)
    as (b' & callback & Hb' & Hcb & Hrun & _).
  injection Hb' as <-. injection Hcb as <-. exact Hrun.
Defined.


(** A handler that can be called with the response, with the id and with
    nothing, but not with both: the call with the response is the one
    made.  A fail handler that takes nothing is called with nothing. *)
Lemma adapters_call_first_match_example :
  let body := {| calls := [CallCancel (RPCError:=Z) 9]; throws := None |} in
  let handler := {| done_full := None;
                    done_response := Some (λ _ : Z, body);
                    done_requestId := Some (λ _, body);
                    done_none := Some body |} in
  let fhandler := {| fail_full := None; fail_error := None;
                     fail_requestId := None; fail_none := Some body |} in
  let b := request example_serialize 5 in
  let result := [Byte.x2a; Byte.x00; Byte.x00; Byte.x00] in
  let s := {| _requests := ∅ |} in
  (∃ invokeFull callback,
     SpecificRequestBuilder_done example_read handler b
     = Some (setDoneHandler example_read invokeFull b) ∧
     done (_handlers (setDoneHandler example_read invokeFull b))
     = Some callback ∧
     entries (invokeFull 7 42) = [UserDone (DoneResponse 42)] ∧
     example_read (prime_range result) = inr 42 ∧
     entries (callback 7 result) = [UserDone (DoneResponse 42)] ∧
     run example_isFlood example_handledElsewhere (callback 7 result) s
     = Some {| outcome := Normal; sender := s;
               trace := [UserEntered (UserDone (DoneResponse 42));
                         TransportCancel 9] |}) ∧
  (∃ invokeFull,
     SpecificRequestBuilder_fail fhandler b = Some (setFailHandler invokeFull b) ∧
     entries (invokeFull 7 400) = [UserFail FailNone]).
Proof.
  intros body handler fhandler b result s.
  destruct (adapters_call_first_match
              example_isFlood example_handledElsewhere example_read
              handler fhandler
              (λ _ result, (DoneResponse result, body))
              (λ _ _, (FailNone, body)) b)
    as [(inv & callback & Hinv & _ & Hcallback & Hcalls & Hstored & _)
        (finv & Hfinv & _ & Hfcalls)].
  - by apply (done_match_response handler (λ _, body)).
  - by apply (fail_match_none fhandler body).
  - split.
    + exists inv, callback. split; [exact Hinv|]. split; [exact Hcallback|].
      split; [apply (Hcalls 7 42 s)|]. split; [reflexivity|].
      destruct (Hstored 7 result 42 s eq_refl) as [Hentries Hrun].
      split; [exact Hentries|]. rewrite Hrun. reflexivity.
    + exists finv. split; [exact Hfinv|].
      apply (Hfcalls 7 400 s).
Defined.

(** A handler that cannot be called in any of the four ways. *)
Lemma unmatched_handler_rejected_example :
  let handler := {| done_full := None; done_response := None;
                    done_requestId := None; done_none := None |} in
  let fhandler := {| fail_full := None; fail_error := None;
                     fail_requestId := None; fail_none := None |} in
  SpecificRequestBuilder_done (Response:=Z) (RPCError:=Z) example_read handler
    (request example_serialize 5) = None ∧
  SpecificRequestBuilder_fail (Response:=Z) (RPCError:=Z) fhandler
    (request example_serialize 5) = None.
Proof.
  intros handler fhandler.
  destruct (unmatched_handler_rejected example_read handler fhandler
              (request example_serialize 5))
    as ([_ Hdone] & [_ Hfail] & _).
  split; [apply Hdone|apply Hfail]; repeat split.
Defined.

(** Request 7 is built with handleFloodErrors and a fail handler that
    takes the error: a flood error reaches the handler once.  Request 8 is
    built with the same handler and the default policy: the same error is
    dropped. *)
Lemma fail_policy_decides_example :
  let body := {| calls := @nil (Call (RPCError:=Z)); throws := None |} in
  let fhandler := {| fail_full := None; fail_error := Some (λ _ : Z, body);
                     fail_requestId := None; fail_none := None |} in
  let s := {| _requests := ∅ |} in
  ∃ b s7 sub7 r7 s8 sub8 r8,
    SpecificRequestBuilder_fail (Response:=Z) fhandler (request example_serialize 5)
    = Some b ∧
    RequestBuilder_send (handleFloodErrors b) 7 s = Some (s7, sub7) ∧
    transportFail example_isFlood example_handledElsewhere sub7 420 s7 = Some r7 ∧
    fail_invoked_once 7 420 r7 ∧
    RequestBuilder_send b 8 s = Some (s8, sub8) ∧
    transportFail example_isFlood example_handledElsewhere sub8 420 s8 = Some r8 ∧
    trace r8 = [Dropped 8].
Proof.
  intros body fhandler s.
  pose (b := setFailHandler (Response:=Z) (fail_adapter_error (λ _ : Z, body))
               (request example_serialize 5)).
  pose (s7 := {| _requests := <[7 := _handlers b]> (∅ : gmap Z Handlers) |}).
  pose (s8 := {| _requests := <[8 := _handlers b]> (∅ : gmap Z Handlers) |}).
  pose (sub7 := {| sub_requestId := 7; sub_serialized := [5]; sub_dcId := 0;
                   sub_canWait := 0; sub_afterRequestId := 0;
                   sub_policy := HandleFlood |}).
  pose (sub8 := {| sub_requestId := 8; sub_serialized := [5]; sub_dcId := 0;
                   sub_canWait := 0; sub_afterRequestId := 0;
                   sub_policy := Simple |}).
  destruct (fail_policy_decides example_isFlood example_handledElsewhere
              example_serialize HandleFlood 5 fhandler b 7 s s7 sub7 420
              eq_refl eq_refl)
    as (r7 & Hr7 & _ & Hinvoked & _).
  destruct (fail_policy_decides example_isFlood example_handledElsewhere
              example_serialize Simple 5 fhandler b 8 s s8 sub8 420
              eq_refl eq_refl)
    as (r8 & Hr8 & _ & Hdropped & _).
  exists b, s7, sub7, r7, s8, sub8, r8.
  repeat split; try reflexivity; assumption.
Defined.

(** The done callback of request 7 delivers to 7 again, fails 7 and then
    delivers to 8, whose handler cancels 7: the callback of 7 is invoked
    once, by the delivery itself. *)
Lemma exactly_once_resolution_example :
  let result := [Byte.x2a; Byte.x00; Byte.x00; Byte.x00] in
  let stubborn := λ requestId res,
        Reenter (CallDone (RPCError:=Z) requestId res)
          (Reenter (CallFail HandleAll requestId 3)
             (Reenter (CallDone 8 res) Return)) in
  let h7 := {| done := Some stubborn; fail := Some (λ _ _, Throw (Thrown 2)) |} in
  let h8 := {| done := Some (done_closure example_read
                 (done_adapter_full
                    (λ _ _, {| calls := [CallCancel 7]; throws := None |})));
               fail := None |} in
  let s := {| _requests := <[7 := h7]> (<[8 := h8]> ∅) |} in
  _requests s !! 7 = Some h7 ∧
  ∃ r',
    run example_isFlood example_handledElsewhere (stubborn 7 result) (erase 7 s)
    = Some r' ∧
    senderRequestDone example_isFlood example_handledElsewhere 7 result s
    = Some (after [DoneCalled 7 result] r') ∧
    callback_calls 7 (trace r') = 0%nat ∧
    trace r' = [DoneCalled 8 result; UserEntered (UserDone (DoneFull 8 42));
                TransportCancel 7].
Proof.
  intros result stubborn h7 h8 s.
  split; [reflexivity|].
  destruct (exactly_once_resolution (Response:=Z)
              example_isFlood example_handledElsewhere 7)
    as (_ & _ & _ & Hdone & _).
  destruct (Hdone s h7 stubborn result eq_refl eq_refl)
    as (r' & Hrun & Hdelivered & Hquiet).
  exists r'. repeat split; try assumption.
  assert (run example_isFlood example_handledElsewhere (stubborn 7 result)
            (erase 7 s)
          = Some {| outcome := Normal; sender := {| _requests := ∅ |};
                    trace := [DoneCalled 8 result;
                              UserEntered (UserDone (DoneFull 8 42));
                              TransportCancel 7] |}) as Hconcrete
    by (vm_compute; reflexivity).
  rewrite Hconcrete in Hrun. by injection Hrun as <-.
Defined.

(** Four bytes holding 1, then four bytes holding 2 and one byte more. *)
Lemma prime_range_app_example :
  let from := [Byte.x01; Byte.x00; Byte.x00; Byte.x00] in
  let rest := [Byte.x02; Byte.x00; Byte.x00; Byte.x00; Byte.xff] in
  length from = (4 * 1)%nat ∧
  prime_range (from ++ rest) = [1; 2].
Proof.
  intros from rest. split; [reflexivity|].
  exact (eq_trans (proj1 (prime_range_app 1 from rest eq_refl)) eq_refl).
Defined.

(** The span holding 42, and the same span with three bytes behind it. *)
Lemma trailing_bytes_are_ignored_example :
  let result := [Byte.x2a; Byte.x00; Byte.x00; Byte.x00] in
  let tail := [Byte.xff; Byte.xff; Byte.xff] in
  let b := request (Response:=Z) (RPCError:=Z) example_serialize 0 in
  length result = (4 * 1)%nat ∧ (length tail < 4)%nat ∧
  ∃ callback,
    done (_handlers (setDoneHandler example_read (λ _ _, Return) b))
    = Some callback ∧
    callback 7 (result ++ tail) = callback 7 result.
Proof.
  intros result tail b.
  assert (length tail < 4)%nat as Htail by (simpl; lia).
  split; [reflexivity|]. split; [exact Htail|].
  exact (trailing_bytes_are_ignored example_read (λ _ _, Return) b 7 1
           result tail eq_refl Htail).
Defined.

(** A handler that takes nothing is registered first, then one that takes
    the response; the same for fail with the error. *)
Lemma last_handler_wins_example :
  let body := {| calls := @nil (Call (RPCError:=Z)); throws := None |} in
  let first := {| done_full := None; done_response := None;
                  done_requestId := None; done_none := Some body |} in
  let second := {| done_full := None; done_response := Some (λ _ : Z, body);
                   done_requestId := None; done_none := None |} in
  let ffirst := {| fail_full := None; fail_error := None;
                   fail_requestId := None; fail_none := Some body |} in
  let fsecond := {| fail_full := None; fail_error := Some (λ _ : Z, body);
                    fail_requestId := None; fail_none := None |} in
  let b := request example_serialize 5 in
  ∃ b1 b2,
    SpecificRequestBuilder_done example_read first b = Some b1 ∧
    SpecificRequestBuilder_fail ffirst b = Some b2 ∧
    SpecificRequestBuilder_done example_read second b1
    = SpecificRequestBuilder_done example_read second b ∧
    SpecificRequestBuilder_fail fsecond b2
    = SpecificRequestBuilder_fail fsecond b.
Proof.
  intros body first second ffirst fsecond b.
  eexists _, _.
  split; [reflexivity|]. split; [reflexivity|].
  apply (last_handler_wins example_read first second ffirst fsecond b);
    reflexivity.
Defined.

(** A builder aimed at a data centre, delayed, with the flood policy and a
    request to wait for: done() and fail() keep all of that. *)
Lemma handlers_set_nothing_else_example :
  let body := {| calls := @nil (Call (RPCError:=Z)); throws := None |} in
  let handler := {| done_full := None; done_response := Some (λ _ : Z, body);
                    done_requestId := None; done_none := None |} in
  let fhandler := {| fail_full := None; fail_error := None;
                     fail_requestId := None; fail_none := Some body |} in
  let b := afterRequest 3 (handleFloodErrors (afterDelay 100
             (toDC 2 (request example_serialize 5)))) in
  ∃ b1 b2,
    SpecificRequestBuilder_done example_read handler b = Some b1 ∧
    SpecificRequestBuilder_fail fhandler b = Some b2 ∧
    (_dcId b1, _canWait b1, _failSkipPolicy b1, _afterRequestId b1)
    = (2, 100, HandleFlood, 3) ∧
    (_dcId b2, _canWait b2, _failSkipPolicy b2, _afterRequestId b2)
    = (2, 100, HandleFlood, 3).
Proof.
  intros body handler fhandler b.
  eexists _, _.
  split; [reflexivity|]. split; [reflexivity|].
  destruct (handlers_set_nothing_else example_read handler fhandler b _ _
              eq_refl eq_refl)
    as [(_ & _ & H1 & H2 & H3 & H4) (_ & _ & H5 & H6 & H7 & H8)].
  split.
  - rewrite H1, H2, H3, H4. reflexivity.
  - rewrite H5, H6, H7, H8. reflexivity.
Defined.

(** A fail handler that takes the error and throws at once. *)
Lemma fail_handler_exception_propagates_example :
  let throwing := λ _ : Z,
        {| calls := @nil (Call (RPCError:=Z)); throws := Some (Thrown 9) |} in
  let s := {| _requests := ∅ |} in
  run (Response:=Z) example_isFlood example_handledElsewhere
    (fail_adapter_error throwing 7 400) s
  = Some {| outcome := Raised (Thrown 9); sender := s;
            trace := [UserEntered (UserFail (FailError 400))] |}.
Proof.
  intros throwing s.
  pose (fhandler := {| fail_full := None; fail_error := Some throwing;
                       fail_requestId := None; fail_none := None |}).
  destruct (fail_handler_exception_propagates (Response:=Z)
              example_isFlood example_handledElsewhere
              fhandler (λ _ error, (FailError error, throwing error))
              (request example_serialize 5) 7 400 (Thrown 9) s
              (fail_match_error fhandler throwing eq_refl eq_refl) eq_refl)
    as (b' & callback & r & e' & Hb' & Hcallback & Hr & _ & Hexact).
  injection Hb' as <-. injection Hcallback as <-.
  rewrite (Hexact eq_refl) in Hr. exact Hr.
Defined.

(** A handler that takes the id: results holding 1 and holding 2. *)
Lemma unused_response_is_irrelevant_example :
  let body := {| calls := @nil (Call (RPCError:=Z)); throws := None |} in
  let handler := {| done_full := None; done_response := None;
                    done_requestId := Some (λ _ : mtpRequestId, body);
                    done_none := None |} in
  ∃ b' callback,
    SpecificRequestBuilder_done (Response:=Z) example_read handler
      (request example_serialize 5) = Some b' ∧
    done (_handlers b') = Some callback ∧
    callback 7 [Byte.x01; Byte.x00; Byte.x00; Byte.x00]
    = callback 7 [Byte.x02; Byte.x00; Byte.x00; Byte.x00].
Proof.
  intros body handler.
  apply (unused_response_is_irrelevant example_read handler
           (λ requestId _, (DoneRequestId requestId, body))
           (request example_serialize 5) 7
           [Byte.x01; Byte.x00; Byte.x00; Byte.x00]
           [Byte.x02; Byte.x00; Byte.x00; Byte.x00] 1 2);
    try reflexivity.
  by apply (done_match_requestId handler (λ _, body)).
Defined.

End MTP.
